(* ===== verification/_CoqProject ===== *)
-Q . S2P
Prelude.v
Js.v
Remote.v
Forms.v
FormWorld.v
Sequencing.v
FormProps.v
Modal.v
Shell.v
OrgDetails.v
App.v
DialogSpec.v
UserDetails.v
System.v
SysTyping.v
SystemProps.v
SysOrgs.v
