(* ===== verification/Prelude.v ===== *)
(** * org_demo: a verification development of the web client's state logic

    The repository is a React client ([src/web/src]) for an admin console
    over organisations, users and linodes (compute instances).  Its
    state-transition logic lives in four components.  [App.js] is the
    root coordinator.  It owns the snapshot of organisations, the
    selected user, the three "adding" flags and the [broke] flag.
    [AddOrg.js], [AddUser.js] and [AddLinode.js] are the creation forms:
    each checks its name or email with [GET /api/exists/...] and posts the
    creation.  [MyModal.js] is the dialog they are shown in.  App passes
    each form two callbacks: [closeReload] (close the dialog and re-fetch
    the snapshot) and [setError] (the global error sink).  The forms call
    them from the continuations of their axios promises.

    Files, in dependency order (the _CoqProject order):
    - [Prelude.v] (this file): the shared vocabulary.  A React method is a
      [handler S E = S -> S * list E]: it reads [this.state], performs
      [setState] (synchronously, as React applies an event handler's
      updates before the next event) and emits effects (axios calls,
      parent callbacks, console logs).  [hskip] is an early [return],
      [set_state] is [setState], [emit] is an effect, [with_state] reads
      [this.state], and [>>>] ([handler_scope]) is statement sequencing.
      Also here: [rtc_invariant], the invariant principle over stdpp's
      [rtc].
    - [Js.v]: the JavaScript semantics the components rely on: [js_truthy]
      for [!s] on strings, and [parseInt10] for [parseInt(s, 10)] (white
      space, sign, longest digit run, [JNaN] when there is no digit).
      [parseInt10_pretty] proves that [parseInt] reads back the decimal
      rendering React gives a number ([String(org.id)]).
    - [Remote.v]: the server API as the client uses it (spec section 6).
      [request] has one constructor per axios call site, [url] gives their
      literal URLs, and [response]/[outcome] give what the promises settle
      with.  The black-box server is the [Backend] class, modelled from
      the spec (it is not in the client sources).  [settles] says a
      request settles with the server's answer or with a failure.
      [request_path] is the path the browser sends for a URL, cut at [?]
      or [#].  A check's value is interpolated into its URL unencoded, so
      [v] and [v] followed by [#] or [?] reach the server as the same
      check (C19).
    - [Forms.v]: Modules [AddOrg], [AddUser] and [AddLinode], one per
      source file.  Each has the [state] record of its constructor and one
      definition per method ([_checkValidity]/[checkValidity], [update*],
      [updateOrg], [submit], [getValidationState]).  Each also has its
      promise continuations ([check_settled], [create_settled]), the submit
      button's [disabled] expression ([submit_disabled]) and the wiring of
      DOM events to methods ([handle]).  lodash's [debounce(f, 250)] in
      AddOrg is a [debounce_pending] flag: [checkValidity] sets it, and
      [debounce_fire] runs the trailing call when the window elapses.
      At its end, [rendered_options] is the organisation select the
      AddUser and AddLinode [render] build.  Claims: [updateOrg] reads
      back exactly the selected ids (C21, C22, by [parseInt10_pretty]),
      and the default-selected placeholder is read as [NaN] and counted
      as an organisation by the submit button (C23).
    - [FormWorld.v]: one mounted form among its requests in flight.
      [wstep fifo] is the event loop.  The user fires DOM events (submit
      only while the button is enabled: HTML implicit submission is
      suppressed by a disabled submit button).  The debounce window
      elapses.  The network settles any in-flight request, with
      [fifo = false], or only the oldest, with [fifo = true].  [wexec] and
      [wrun] compute the same steps; [wrun_sound] and [wrun_sound_fifo]
      turn a computed run into a path, which is how concrete scenarios
      are checked.
    - [Sequencing.v]: the sequencing invariant [seq_inv] of a form world,
      proved from two records of laws.  [settle_laws] is what every form's
      continuations satisfy.  [immediate_laws] is what a form that checks
      on every change satisfies.  The invariant holds in every FIFO-reachable
      world ([seq_inv_reachable]).
    - [FormProps.v]: the claims about the forms.  With in-order responses
      each form's [valid] settles on the server's verdict for the current
      value (C1, C3, C20).  With reordered responses AddUser and AddOrg
      settle on 'yes' for a taken value and post it (C2, C4): the
      unsequenced-check bug of spec section 9, which the debounce does not
      fix.  Submit gating: a step that sends a creation call is an enabled
      submit sending exactly the current values (C6, C7, and
      [addorg_submit_gated] for AddOrg).  Submission is
      not single-flight (C8).  AddOrg can post an empty name (C9).  The
      debounce coalesces a burst into one check (C10).
    - [Modal.v]: Module [MyModal].  [render] gives what is shown from the
      props.  [offered] and [request_close] give which affordances invoke
      [close]: Escape and the backdrop always do, through [onHide], and
      [closeable] only adds the two buttons (C18).
    - [Shell.v]: [index.js] and [Header.js].  Module [Header] is the
      navbar, and Module [Shell] the hash router: [hash_pathname] is the
      location's pathname and [matches_root] the non-exact [Route]
      ["/"].  [shell_renders_app] shows that App is rendered at the same
      place for every location, so navigating to ["#/"] (the navbar's and
      OrgDetails' links) never remounts App or resets its session.
    - [OrgDetails.v]: Module [OrgDetails], the read-only view of one
      organisation.  [render] gives its name, its users table and its
      linodes table, with the "No Users"/"No Linodes" placeholders.  Each
      user row is a link calling [selectUser(user.id)]; [link_targets]
      lists those ids, and App's page takes its user clicks from them.
    - [App.v]: Module [App], the coordinator: every method, the
      continuation of [fetchOrgs], and from [render] [orgsExist], the Add
      buttons' [disabled] props and the props of the five dialogs
      ([modal_props]).  Then the session world [astep]: page clicks happen
      only while no dialog is shown (the dialog's backdrop covers the
      page); a shown dialog's close affordances; the error dialog's
      Refresh; the children's callbacks at any time (an over-approximation
      of the forms); the settling of [GET /api/orgs].  Claims: at most one
      dialog is shown and [broke] leaves only the error dialog (C11);
      [broke] is never cleared (C12); [closeReload] clears its dialog and
      re-fetches exactly once (C13); a dismissal does not re-fetch (C14);
      [setError] pre-empts every dialog (C15); a failed fetch, spec
      scenario C, is one [setError].  Spec scenario D is C16.  The
      handlers do not check [broke] (C17), and the error
      dialog ignores every close request ([error_dialog_close_noop]).
    - [UserDetails.v]: Module [UserDetails], the body of the user dialog.
      Its [state.user] is [null], [undefined] or the user.  It has the
      fetch of [componentWillMount] (skipped when [userId] is falsy), its
      continuations, [getOrgNameById] and what [render] shows.  [udstep]
      settles the single fetch.  [getOrgNameById] is [List.find] (C24).
      For a positive id the component is always loading, showing the
      server's user, or has reported the failure, and never renders an
      [undefined] user (C25).  The id [0] is never fetched, so the dialog
      shows "Loading..." for good (C26).  The server's user is shown one
      step after mounting (C27).
    - [DialogSpec.v]: the spec's [DialogState] (section 3) as an abstract
      machine [dstep] with the transitions of section 4.4, modelled from
      the spec.  [dialog_of] reads it off App's fields.  Every step of a
      reachable App session is a [dstep] or leaves the dialog unchanged
      (C33).
    - [System.v]: the whole client.  App runs with the dialog bodies it
      mounts: AddOrg, AddUser, AddLinode and UserDetails, each mounted
      while its dialog is shown (react-bootstrap's [Modal] renders its
      body only then).  [reconcile] is the re-render after every App
      handler: it unmounts hidden bodies and mounts a fresh instance for
      each newly shown dialog, running UserDetails' [componentWillMount].
      Every request in flight is owned by App or by an instance, and an
      instance keeps running its promise continuations and its debounce
      timer after it is unmounted.  React drops its [setState] then, but
      its [closeReload] and [setError] props still reach App.  [sstep] is
      the event loop (page clicks, DOM events in mounted bodies, timers,
      settlements in any order).  A select change in AddUser or AddLinode
      carries the options the body renders from App's [orgs] prop
      ([select_rendered]); AddLinode's single select cannot select its
      disabled placeholder.  [app_view] projects it onto App's
      session.  [reconciled] and [mounted_shown] are the rendering
      invariants.  [load] weighs the requests in flight, a creation call
      counting twice.
    - [SysTyping.v]: the typing of the whole client's state.  Each
      instance's body is its dialog's component, and each request in
      flight is one its owner issues.  [sstep_preserves] is a generic
      preservation principle for the invariants of [sstep].  Typing is
      preserved, and every request in flight can settle (progress); both
      are in C36.
    - [SystemProps.v]: the claims about the whole client.  It refines
      App's session world ([reachable_refines], an over-approximation
      that admits the children's callbacks at any time), so the dialog
      invariant holds for the whole client, with bodies mounted exactly
      while shown (C28).  Without user input the network quiesces: at
      most [load] settlements follow any reachable state (C29).  A user
      link mounts UserDetails, which fetches that user (C32).  Only an
      enabled submit of a mounted form sends a
      creation call, with that form's values (C34).  Stale callbacks of
      dismissed bodies: a dismissed AddOrg's creation closes the dialog
      reopened after it (C30); a later failure replaces the error
      message (C31); a dismissed AddOrg's debounced check is still sent
      (C35).
    - [SysOrgs.v]: the organisation ids through the whole client.  The
      invariant [sys_served]: App's [orgs] is [null] or the server's
      list, AddUser's [orgIds] holds listed ids or the placeholder's
      [NaN], AddLinode's [orgId] a listed id, and every request sent is
      consistent with them.  So every user or linode creation carries
      only ids the server listed (C5).

    Fuel and bounds: no definition needs fuel.  Handlers are finite
    compositions, [reconcile] folds over the five dialogs, and the
    worlds are relations whose reachability is stated with [rtc].  The
    network's termination (C29) is proved with the [load] measure, not
    with fuel.  Time is abstract: the debounce timer may fire at any
    point after it was armed.  This over-approximates lodash's 250ms
    window, which never fires in the middle of a burst, so the claims
    about every run cover the real timings too.  Concrete scenarios use small servers ([demo_backend]
    in FormProps.v, on which only "ac" is taken; [demo_app_backend] in
    App.v; [sys_demo_backend] in SystemProps.v).

    Not modelled: styling, the [propTypes] declarations (checked only in
    development builds), and the server (only its contract).
    React-router's matching and the hash history are assumed as stated
    in Shell.v.
    React's and lodash's own semantics are assumed, not modelled: a
    hidden [Modal] unmounts its body at once, with exit animations
    abstracted; [setState] on an unmounted component is dropped; a
    debounced call survives unmounting.  The browser's select widget is
    abstracted to the options it reads back: any selection of the
    rendered options, except that a single select's disabled
    placeholder cannot be chosen.
    The sequenced validator the spec asks for (section 9) is not in the
    code, so there is nothing of the program to model; C2 and C4 show
    the unsequenced checks it would fix. *)

From stdpp Require Export base list strings relations pretty.
From Stdlib Require Export ZArith Ascii.

Declare Scope handler_scope.
Delimit Scope handler_scope with handler.

(** ** Handlers: [this.state] threading with emitted effects *)

Definition handler (S E : Type) : Type := S -> S * list E.

Section Handlers.
Context {S E : Type}.
Implicit Types (h : handler S E) (s : S).

(** A method body that does nothing (an early [return]). *)
Definition hskip : handler S E := fun s => (s, []).

(** [this.setState(...)], given as the function it applies. *)
Definition set_state (f : S -> S) : handler S E := fun s => (f s, []).

(** An effect: an axios call or a call of a parent's callback. *)
Definition emit (e : E) : handler S E := fun s => (s, [e]).

(** Statement sequencing. *)
Definition hseq (h1 h2 : handler S E) : handler S E :=
  fun s => let '(s1, e1) := h1 s in let '(s2, e2) := h2 s1 in (s2, e1 ++ e2).

(** Reading [this.state] to decide what to do next. *)
Definition with_state (k : S -> handler S E) : handler S E := fun s => k s s.

(** The state after running a handler and the effects it emitted. *)
Definition run_state h s : S := fst (h s).
Definition run_effects h s : list E := snd (h s).

Lemma hseq_run h1 h2 s :
  hseq h1 h2 s =
    (fst (h2 (fst (h1 s))), snd (h1 s) ++ snd (h2 (fst (h1 s)))).
Proof. unfold hseq. destruct (h1 s) as [s1 e1]. simpl. by destruct (h2 s1). Qed.

Lemma hskip_l h s : hseq hskip h s = h s.
Proof. unfold hseq, hskip. by destruct (h s). Qed.

Lemma hskip_r h s : hseq h hskip s = h s.
Proof. unfold hseq, hskip. destruct (h s). by rewrite app_nil_r. Qed.

Lemma hseq_assoc h1 h2 h3 s : hseq (hseq h1 h2) h3 s = hseq h1 (hseq h2 h3) s.
Proof. rewrite !hseq_run. simpl. by rewrite app_assoc. Qed.
End Handlers.

Arguments hskip {S E} _ /.
Arguments set_state {S E} _ _ /.
Arguments emit {S E} _ _ /.
Arguments with_state {S E} _ _ /.

Notation "h1 >>> h2" := (hseq h1 h2) (at level 60, right associativity) : handler_scope.
Open Scope handler_scope.

Create Rewrite HintDb handler.
Create HintDb orgdemo discriminated.
#[export] Hint Rewrite @hseq_run : handler.

(** Unfold a handler application to its result pair. *)
Ltac run_handler := repeat (simpl; autorewrite with handler).

(** ** Reachability and invariants *)

(** A predicate preserved by every step holds along any [rtc] path. *)
Lemma rtc_invariant {A} (R : relation A) (P : A -> Prop) x y :
  (forall a b, R a b -> P a -> P b) -> P x -> rtc R x y -> P y.
Proof. intros Hstep Hx Hxy. induction Hxy; eauto. Qed.
