(* ===== verification/Js.v ===== *)
(** * Js: the JavaScript semantics the components rely on

    String truthiness ([!s] is true exactly for the empty string),
    [parseInt(s, 10)] as [parseInt10] (leading white space, an optional
    sign, the longest run of decimal digits, [NaN] when there is none),
    and the roundtrip of [parseInt10] with the decimal rendering of a
    natural number: React renders [<option value={org.id}>] with
    [String(org.id)], and the selects read it back with [parseInt]. *)

From S2P Require Import Prelude.

(** Truthiness of a string: [!s] holds exactly for the empty string. *)
Definition js_truthy (s : string) : bool := negb (String.eqb s "").

Lemma js_truthy_false s : js_truthy s = false <-> s = "".
Proof.
  unfold js_truthy. destruct (String.eqb_spec s ""); simpl; split; congruence.
Qed.

(** A JavaScript number as produced by [parseInt]: [NaN] or an integer. *)
Inductive jsnum := JNaN | JNum (z : Z).

#[export] Instance jsnum_eq_dec : EqDecision jsnum.
Proof. solve_decision. Qed.

(** Whitespace that [parseInt] skips (the ASCII part of JS white space). *)
Definition is_js_space (c : ascii) : bool :=
  match nat_of_ascii c with 9 | 10 | 11 | 12 | 13 | 32 => true | _ => false end.

Definition digit_value (c : ascii) : option Z :=
  let n := nat_of_ascii c in
  if (48 <=? n) && (n <=? 57) then Some (Z.of_nat (n - 48)) else None.

(** The longest prefix of decimal digits, accumulated into [acc];
    [None] when [seen] is false and no digit starts the string. *)
Fixpoint parse_digits (s : string) (acc : Z) (seen : bool) : option Z :=
  match s with
  | EmptyString => if seen then Some acc else None
  | String c s' =>
      match digit_value c with
      | Some d => parse_digits s' (10 * acc + d) true
      | None => if seen then Some acc else None
      end
  end.

Fixpoint skip_space (s : string) : string :=
  match s with
  | String c s' => if is_js_space c then skip_space s' else s
  | EmptyString => EmptyString
  end.

(** [parseInt(s, 10)]: leading white space, an optional sign, then the
    longest run of decimal digits; [NaN] when there is no digit. *)
Definition parseInt10 (s : string) : jsnum :=
  let num o sign := match o with Some z => JNum (sign * z) | None => JNaN end in
  match skip_space s with
  | String "-" s' => num (parse_digits s' 0 false) (-1)%Z
  | String "+" s' => num (parse_digits s' 0 false) 1%Z
  | s' => num (parse_digits s' 0 false) 1%Z
  end.

(** ** The decimal rendering of a natural number, read back *)

Lemma pretty_N_char_cases d :
  (d < 10)%N -> d = 0%N \/ d = 1%N \/ d = 2%N \/ d = 3%N \/ d = 4%N \/
                d = 5%N \/ d = 6%N \/ d = 7%N \/ d = 8%N \/ d = 9%N.
Proof. intros. lia. Qed.

Lemma digit_value_pretty d : (d < 10)%N -> digit_value (pretty_N_char d) = Some (Z.of_N d).
Proof. intros Hd. apply pretty_N_char_cases in Hd. destruct_or! Hd; by subst. Qed.

(** Reading the digits [pretty_N_go] prepends shifts the accumulator by
    their number [k] and adds [x]. *)
Lemma parse_digits_pretty_go x :
  exists k : nat, forall s acc b,
    parse_digits (pretty_N_go x s) acc b =
      parse_digits s (acc * 10 ^ Z.of_nat k + Z.of_N x) (b || bool_decide (0 < x)%N).
Proof.
  induction (N.lt_wf_0 x) as [x _ IH].
  destruct (decide (x = 0%N)) as [-> | Hx].
  - exists 0. intros s acc b. rewrite pretty_N_go_0, bool_decide_false, orb_false_r by lia.
    f_equal. lia.
  - destruct (IH (x `div` 10)%N) as [k Hk]; [apply N.div_lt; lia |].
    exists (S k). intros s acc b. rewrite pretty_N_go_step by lia. rewrite Hk. simpl.
    rewrite digit_value_pretty by (apply N.mod_lt; lia).
    rewrite (bool_decide_true (0 < x)%N), orb_true_r by lia. f_equal.
    rewrite Nat2Z.inj_succ, Z.pow_succ_r by lia.
    pose proof (N.div_mod x 10) as Hdm. lia.
Qed.

(** A positive number's rendering starts with one of its digits. *)
Lemma pretty_N_go_head x s :
  (0 < x)%N -> exists d s', (d < 10)%N /\ pretty_N_go x s = String (pretty_N_char d) s'.
Proof.
  revert s. induction (N.lt_wf_0 x) as [x _ IH]; intros s Hx.
  rewrite pretty_N_go_step by done.
  destruct (decide (x `div` 10 = 0)%N) as [Hz | Hnz].
  - rewrite Hz, pretty_N_go_0. eexists _, _. split; [apply N.mod_lt; lia | done].
  - apply IH; [apply N.div_lt; lia | by apply N.neq_0_lt_0].
Qed.

(** A string starting with a digit is parsed without skipping or sign. *)
Lemma parseInt10_digit_string d s :
  (d < 10)%N ->
  parseInt10 (String (pretty_N_char d) s) =
    match parse_digits (String (pretty_N_char d) s) 0 false with
    | Some z => JNum (1 * z) | None => JNaN
    end.
Proof. intros Hd. apply pretty_N_char_cases in Hd. destruct_or! Hd; by subst. Qed.

(** [parseInt(String(n), 10)] is [n] for every natural number [n]. *)
Lemma parseInt10_pretty (n : nat) : parseInt10 (pretty (N.of_nat n)) = JNum (Z.of_nat n).
Proof.
  unfold pretty, pretty_N. destruct (decide (N.of_nat n = 0%N)) as [Hz | Hnz].
  - assert (n = 0) as -> by lia. reflexivity.
  - destruct (pretty_N_go_head (N.of_nat n) "") as (d & s' & Hd & Hhead); [lia |].
    rewrite Hhead, parseInt10_digit_string by done. rewrite <- Hhead.
    destruct (parse_digits_pretty_go (N.of_nat n)) as [k Hk]. rewrite Hk.
    rewrite bool_decide_true by lia. simpl. f_equal. lia.
Qed.
