(* ===== verification/Remote.v ===== *)
(** * Remote: the server API as the client calls it

    The requests the client issues with axios (one constructor per call
    site of the source), the URLs its template literals build, the shape
    of the JSON the client reads back, and the black-box server as the
    [Backend] class (spec section 6).  The server is not part of the
    client sources; only its contract is stated here. *)

From S2P Require Import Prelude Js.

(** The [kind] path segment of [/api/exists/{kind}/{value}]. *)
Inductive kind := KOrg | KUser | KLinode.

#[export] Instance kind_eq_dec : EqDecision kind.
Proof. solve_decision. Qed.

Definition kind_segment (k : kind) : string :=
  match k with KOrg => "org" | KUser => "user" | KLinode => "linode" end.

(** One constructor per axios call of the client. *)
Inductive request :=
  | GetOrgs                                          (* App.fetchOrgs *)
  | GetUser (id : nat)                               (* UserDetails mount *)
  | GetExists (k : kind) (value : string)            (* the three checkValidity *)
  | PostOrg (name : string)                          (* AddOrg.submit *)
  | PostUser (email : string) (org_ids : list jsnum) (* AddUser.submit *)
  | PostLinode (name : string) (org_id : option jsnum). (* AddLinode.submit; None is null *)

#[export] Instance request_eq_dec : EqDecision request.
Proof. solve_decision. Qed.

(** The creation calls, the ones a submit issues. *)
Definition is_create (r : request) : bool :=
  match r with PostOrg _ | PostUser _ _ | PostLinode _ _ => true | _ => false end.

(** The kind and value an existence check asks about, if [r] is one. *)
Definition check_of (r : request) : option (kind * string) :=
  match r with GetExists k v => Some (k, v) | _ => None end.

(** The URL of each call: the source's string and template literals,
    with the value interpolated as is (no encoding). *)
Definition url (r : request) : string :=
  match r with
  | GetOrgs => "/api/orgs"
  | GetUser id => "/api/user/" ++ pretty (N.of_nat id)
  | GetExists k v => "/api/exists/" ++ kind_segment k ++ "/" ++ v
  | PostOrg _ => "/api/create/org"
  | PostUser _ _ => "/api/create/user"
  | PostLinode _ _ => "/api/create/linode"
  end.

(** ** The JSON the client reads back *)

Record user_ref := mkUserRef { user_id : nat; user_email : string }.
Record linode_ref := mkLinodeRef { linode_name : string; linode_org : nat }.
Record org_ref := mkOrgRef { ref_id : nat; ref_name : string }.

(** An element of [orgs] in [GET /api/orgs]. *)
Record org := mkOrg {
  org_id : nat;
  org_name : string;
  org_users : list user_ref;
  org_linodes : list linode_ref
}.

(** [user] in [GET /api/user/{id}]. *)
Record user_detail := mkUserDetail {
  detail_id : nat;
  detail_email : string;
  detail_orgs : list org_ref;
  detail_linodes : list linode_ref
}.

Inductive response :=
  | RExists (exists_ : bool)   (* { exists } *)
  | ROrgs (orgs : list org)    (* { orgs } *)
  | RUser (u : user_detail)    (* { user } *)
  | RCreated.                  (* the created resource, never read *)

(** [resp.data.exists] as the client reads it: a response of another
    shape has no [exists] field, and [undefined] is falsy. *)
Definition resp_exists (r : response) : bool :=
  match r with RExists b => b | _ => false end.

(** Transport errors and HTTP error statuses: the client treats both as
    the same opaque rejection of the promise. *)
Inductive failure := Transport | HttpStatus (code : nat).

(** How a promise settles. *)
Inductive outcome := Resolved (r : response) | Rejected (f : failure).

(** ** The server as a black box *)

(** What the server answers; [backend_user] is [None] for an unknown id,
    which the server reports as 404. *)
Class Backend := {
  backend_exists : kind -> string -> bool;
  backend_orgs : list org;
  backend_user : nat -> option user_detail
}.

(** The successful answer of the server to a request. *)
Definition backend_reply `{Backend} (r : request) : outcome :=
  match r with
  | GetOrgs => Resolved (ROrgs backend_orgs)
  | GetUser id =>
      match backend_user id with
      | Some u => Resolved (RUser u)
      | None => Rejected (HttpStatus 404)
      end
  | GetExists k v => Resolved (RExists (backend_exists k v))
  | PostOrg _ | PostUser _ _ | PostLinode _ _ => Resolved RCreated
  end.

(** How the network may settle a request: the server's answer, or a
    failure (transport or HTTP error) of any request. *)
Definition settles `{Backend} (r : request) (o : outcome) : Prop :=
  o = backend_reply r \/ exists f, o = Rejected f.

(** ** What the server sees of a URL *)

(** The path of the HTTP request the browser sends for a URL: a [?]
    starts the query string and a [#] the fragment, which is not sent;
    the server routes on what precedes them. *)
Fixpoint request_path (u : string) : string :=
  match u with
  | EmptyString => EmptyString
  | String c u' =>
      if bool_decide (c = "?"%char) || bool_decide (c = "#"%char) then EmptyString
      else String c (request_path u')
  end.

Lemma request_path_app u v :
  request_path u = u -> request_path (u ++ v)%string = (u ++ request_path v)%string.
Proof.
  induction u as [| c u IH]; simpl; [done |].
  destruct (_ || _); [done |]. intros [= Hu]. by rewrite IH.
Qed.

Lemma string_app_empty u : (u ++ "")%string = u.
Proof. induction u as [| c u IH]; [done |]. change (String c (u ++ "")%string = String c u). by rewrite IH. Qed.

Lemma string_empty_app u : ("" ++ u)%string = u.
Proof. reflexivity. Qed.

Lemma string_app_neq v t : t <> EmptyString -> (v ++ t)%string <> v.
Proof.
  induction v as [| a v IH]; intros Ht Heq; [done |].
  change (String a (v ++ t)%string = String a v) in Heq. injection Heq. by apply IH.
Qed.

Lemma request_path_cut c s :
  c = "?"%char \/ c = "#"%char -> request_path (String c s) = EmptyString.
Proof. intros [-> | ->]; reflexivity. Qed.

(** C19. The value of an existence check is interpolated into the URL
    without encoding: for a value [v] the server can route, appending
    [?] or [#] and anything after it leaves the request path unchanged.
    The server then answers the check of [v] for both values, while the
    creation call sends the whole value in its JSON body. *)
Theorem exists_url_collision k v c s :
  request_path v = v -> c = "?"%char \/ c = "#"%char ->
  request_path (url (GetExists k (v ++ String c s)%string)) = request_path (url (GetExists k v)) /\
  (v ++ String c s)%string <> v.
Proof.
  intros Hv Hc. split.
  - destruct k; simpl; rewrite !string_empty_app, (request_path_app v), request_path_cut, Hv by done;
      by rewrite string_app_empty.
  - by apply string_app_neq.
Qed.

Lemma exists_url_collision_witness :
  request_path (url (GetExists KOrg ("acme" ++ String "#" "2")%string)) =
    request_path (url (GetExists KOrg "acme")) /\
  ("acme" ++ String "#" "2")%string <> "acme".
Proof. apply exists_url_collision; [reflexivity | by right]. Defined.
