(* ===== verification/Forms.v ===== *)
(** * Forms: the three creation forms

    One Module per component file: [AddOrg] (AddOrg.js), [AddUser]
    (AddUser.js, whose class is also named [AddOrg] in the source) and
    [AddLinode] (AddLinode.js).  Each has its [state] record as the
    constructor initialises [this.state], one definition per method, the
    submit button's [disabled] expression from [render] ([submit_disabled]),
    the promise continuations of its axios calls ([check_settled],
    [create_settled]), and [handle], the wiring [render] sets up from DOM
    events to methods ([onChange] of the inputs, [onSubmit] of the form).

    The forms share the vocabulary at the top: the [valid] field's three
    string values as [valid_t], the feedback colour [getValidationState]
    computes, the DOM [<option>] elements their selects read, and the
    effects a form emits ([FIssue] an axios call, [FCloseReload] and
    [FSetError] the parent's callbacks). *)

From S2P Require Import Prelude Js Remote.

(** The values the source stores in [this.state.valid]. *)
Inductive valid_t := VNo | VUnknown | VYes.

#[export] Instance valid_t_eq_dec : EqDecision valid_t.
Proof. solve_decision. Qed.

Definition is_yes (v : valid_t) : bool :=
  match v with VYes => true | _ => false end.

(** What [getValidationState] returns to [FormGroup]: [undefined],
    ['success'] or ['error']. *)
Inductive feedback := FbUndefined | FbSuccess | FbError.

(** The body shared by the three [getValidationState] methods, given
    the identifying field and [this.state.valid]. *)
Definition validation_feedback (ident : string) (v : valid_t) : feedback :=
  if String.length ident =? 0 then FbUndefined
  else match v with VYes => FbSuccess | VNo => FbError | VUnknown => FbSuccess end.

(** A DOM [<option>] as [querySelectorAll('option')] yields it. *)
Record dom_option := mkOption { opt_value : string; opt_selected : bool }.

(** What a form does besides [setState]. *)
Inductive form_effect :=
  | FIssue (r : request)                     (* an axios call *)
  | FCloseReload                             (* this.props.closeReload() *)
  | FSetError (e : failure) (msg : string).  (* this.props.setError(err, msg) *)

(** The DOM events a form reacts to, and its debounce timer. *)
Inductive form_event :=
  | FInput (v : string)               (* onChange of the text input *)
  | FSelect (opts : list dom_option)  (* onChange of the select *)
  | FTimer                            (* the debounce window elapses *)
  | FSubmit.                          (* onSubmit of the form *)

(** The interface a form offers to the world that runs it. *)
Record form_ops (S : Type) := {
  fo_init : S;
  fo_handle : form_event -> handler S form_effect;
  fo_settled : request -> outcome -> handler S form_effect;
  fo_disabled : S -> bool;
  fo_valid : S -> valid_t;
  fo_ident : S -> string
}.
Arguments fo_init {S} _.
Arguments fo_handle {S} _ _ _.
Arguments fo_settled {S} _ _ _ _.
Arguments fo_disabled {S} _ _.
Arguments fo_valid {S} _ _.
Arguments fo_ident {S} _ _.

(** ** AddOrg.js *)
Module AddOrg.
(** [this.state], plus the lodash debounce wrapper's pending trailing
    call ([debounce_pending]), which lives in the instance. *)
Record state := mkState {
  name : string;
  submitting : bool;
  valid : valid_t;
  debounce_pending : bool
}.

Definition init : state := mkState "" false VNo false.

Definition h := handler state form_effect.

Definition with_name_unknown (v : string) (s : state) : state :=
  mkState v (submitting s) VUnknown (debounce_pending s).
Definition with_valid (v : valid_t) (s : state) : state :=
  mkState (name s) (submitting s) v (debounce_pending s).
Definition with_pending (b : bool) (s : state) : state :=
  mkState (name s) (submitting s) (valid s) b.

(** [_checkValidity]: nothing for an empty name, else the check of the
    name held in the state when the debounced call runs. *)
Definition _checkValidity : h :=
  with_state (fun s =>
    if negb (js_truthy (name s)) then hskip
    else emit (FIssue (GetExists KOrg (name s)))).

(** Its promise continuations. *)
Definition check_settled (o : outcome) : h :=
  match o with
  | Resolved resp => set_state (with_valid (if resp_exists resp then VNo else VYes))
  | Rejected e => emit (FSetError e "Failed checking org validity")
  end.

(** [this.checkValidity = debounce(this._checkValidity, 250)]: a call
    schedules the trailing invocation, replacing a scheduled one. *)
Definition checkValidity : h := set_state (with_pending true).

(** The debounce window elapses: the scheduled call, if any, runs. *)
Definition debounce_fire : h :=
  with_state (fun s =>
    if debounce_pending s then set_state (with_pending false) >>> _checkValidity
    else hskip).

Definition getValidationState (s : state) : feedback :=
  validation_feedback (name s) (valid s).

Definition update (v : string) : h :=
  set_state (with_name_unknown v) >>> checkValidity.

Definition submit : h :=
  with_state (fun s =>
    if negb (is_yes (valid s)) then hskip
    else emit (FIssue (PostOrg (name s)))).

Definition create_settled (o : outcome) : h :=
  match o with
  | Resolved _ => emit FCloseReload
  | Rejected e => emit (FSetError e "Failed creating organization")
  end.

(** The submit button's [disabled] prop. *)
Definition submit_disabled (s : state) : bool :=
  submitting s || negb (is_yes (valid s)).

Definition on_settled (r : request) (o : outcome) : h :=
  match r with
  | GetExists _ _ => check_settled o
  | PostOrg _ => create_settled o
  | _ => hskip
  end.

Definition handle (ev : form_event) : h :=
  match ev with
  | FInput v => update v
  | FTimer => debounce_fire
  | FSubmit => submit
  | FSelect _ => hskip
  end.

Definition ops : form_ops state :=
  {| fo_init := init; fo_handle := handle; fo_settled := on_settled;
     fo_disabled := submit_disabled; fo_valid := valid; fo_ident := name |}.
End AddOrg.

(** ** AddUser.js *)
Module AddUser.
Record state := mkState {
  email : string;
  orgIds : list jsnum;
  submitting : bool;
  valid : valid_t
}.

Definition init : state := mkState "" [] false VNo.

Definition h := handler state form_effect.

Definition with_email_unknown (v : string) (s : state) : state :=
  mkState v (orgIds s) (submitting s) VUnknown.
Definition with_orgIds (ids : list jsnum) (s : state) : state :=
  mkState (email s) ids (submitting s) (valid s).
Definition with_valid (v : valid_t) (s : state) : state :=
  mkState (email s) (orgIds s) (submitting s) v.

(** [checkValidity(email)]: the check of its argument, issued at once. *)
Definition checkValidity (v : string) : h :=
  emit (FIssue (GetExists KUser v)).

Definition check_settled (o : outcome) : h :=
  match o with
  | Resolved resp => set_state (with_valid (if resp_exists resp then VNo else VYes))
  | Rejected e => emit (FSetError e "Failed checking user validity")
  end.

Definition getValidationState (s : state) : feedback :=
  validation_feedback (email s) (valid s).

(** The loop of [updateOrg]: [parseInt] of every selected option. *)
Fixpoint selected_orgs (opts : list dom_option) : list jsnum :=
  match opts with
  | [] => []
  | o :: os =>
      if opt_selected o then parseInt10 (opt_value o) :: selected_orgs os
      else selected_orgs os
  end.

Definition updateOrg (opts : list dom_option) : h :=
  set_state (with_orgIds (selected_orgs opts)).

Definition updateEmail (v : string) : h :=
  set_state (with_email_unknown v) >>> checkValidity v.

Definition submit : h :=
  with_state (fun s =>
    if negb (is_yes (valid s)) then hskip
    else emit (FIssue (PostUser (email s) (orgIds s)))).

Definition create_settled (o : outcome) : h :=
  match o with
  | Resolved _ => emit FCloseReload
  | Rejected e => emit (FSetError e "Failed creating user")
  end.

Definition submit_disabled (s : state) : bool :=
  submitting s || negb (is_yes (valid s)) || (length (orgIds s) =? 0).

Definition on_settled (r : request) (o : outcome) : h :=
  match r with
  | GetExists _ _ => check_settled o
  | PostUser _ _ => create_settled o
  | _ => hskip
  end.

Definition handle (ev : form_event) : h :=
  match ev with
  | FInput v => updateEmail v
  | FSelect opts => updateOrg opts
  | FSubmit => submit
  | FTimer => hskip
  end.

Definition ops : form_ops state :=
  {| fo_init := init; fo_handle := handle; fo_settled := on_settled;
     fo_disabled := submit_disabled; fo_valid := valid; fo_ident := email |}.
End AddUser.

(** ** AddLinode.js *)
Module AddLinode.
(** [orgId] is [null] ([None]) until an organisation is selected. *)
Record state := mkState {
  name : string;
  orgId : option jsnum;
  submitting : bool;
  valid : valid_t
}.

Definition init : state := mkState "" None false VNo.

Definition h := handler state form_effect.

Definition with_name_unknown (v : string) (s : state) : state :=
  mkState v (orgId s) (submitting s) VUnknown.
Definition with_orgId (id : jsnum) (s : state) : state :=
  mkState (name s) (Some id) (submitting s) (valid s).
Definition with_valid (v : valid_t) (s : state) : state :=
  mkState (name s) (orgId s) (submitting s) v.

Definition checkValidity (v : string) : h :=
  emit (FIssue (GetExists KLinode v)).

Definition check_settled (o : outcome) : h :=
  match o with
  | Resolved resp => set_state (with_valid (if resp_exists resp then VNo else VYes))
  | Rejected e => emit (FSetError e "Failed checking linode validity")
  end.

Definition getValidationState (s : state) : feedback :=
  validation_feedback (name s) (valid s).

(** The loop of [updateOrg]: the first selected option, if any. *)
Fixpoint first_selected (opts : list dom_option) : option dom_option :=
  match opts with
  | [] => None
  | o :: os => if opt_selected o then Some o else first_selected os
  end.

Definition updateOrg (opts : list dom_option) : h :=
  match first_selected opts with
  | Some o => set_state (with_orgId (parseInt10 (opt_value o)))
  | None => hskip
  end.

Definition updateName (v : string) : h :=
  set_state (with_name_unknown v) >>> checkValidity v.

Definition submit : h :=
  with_state (fun s =>
    if negb (is_yes (valid s)) then hskip
    else emit (FIssue (PostLinode (name s) (orgId s)))).

Definition create_settled (o : outcome) : h :=
  match o with
  | Resolved _ => emit FCloseReload
  | Rejected e => emit (FSetError e "Failed creating linode")
  end.

Definition submit_disabled (s : state) : bool :=
  submitting s || negb (is_yes (valid s)) ||
  match orgId s with None => true | Some _ => false end.

Definition on_settled (r : request) (o : outcome) : h :=
  match r with
  | GetExists _ _ => check_settled o
  | PostLinode _ _ => create_settled o
  | _ => hskip
  end.

Definition handle (ev : form_event) : h :=
  match ev with
  | FInput v => updateName v
  | FSelect opts => updateOrg opts
  | FSubmit => submit
  | FTimer => hskip
  end.

Definition ops : form_ops state :=
  {| fo_init := init; fo_handle := handle; fo_settled := on_settled;
     fo_disabled := submit_disabled; fo_valid := valid; fo_ident := name |}.
End AddLinode.

(** ** The organisation selects, rendered and read back *)

(** [<option value={org.id}>]: React writes the number in decimal.  JS
    writes ids of [10^21] and above in exponent form; ids are taken
    below that bound, which the server's ids are far from. *)
Definition option_of_org (o : org) (selected : bool) : dom_option :=
  mkOption (pretty (N.of_nat (org_id o))) selected.

(** The options of the select [render] builds in AddUser and AddLinode:
    the disabled placeholder ["capture"], then one option per
    organisation, each paired with whether the user has selected it. *)
Definition rendered_options (capture_selected : bool) (os : list (org * bool)) : list dom_option :=
  mkOption "capture" capture_selected :: map (fun p => option_of_org p.1 p.2) os.

Definition org_num (o : org) : jsnum := JNum (Z.of_nat (org_id o)).

(** The organisation options alone are read back as the selected ids. *)
Lemma selected_orgs_rendered os :
  AddUser.selected_orgs (map (fun p => option_of_org p.1 p.2) os) =
    map (fun p => org_num p.1) (filter (fun p => p.2 = true) os).
Proof.
  induction os as [| [o b] os IH]; [done |]. simpl.
  rewrite filter_cons. destruct b; simpl; rewrite ?parseInt10_pretty, IH; done.
Qed.

(** C21. AddUser's [updateOrg] reads back exactly the ids of the selected
    organisations, in the order of the list, when the placeholder is not
    selected: the decimal [value] the options are rendered with is
    parsed back by [parseInt]. *)
Theorem adduser_updateOrg_reads_selection os s :
  AddUser.updateOrg (rendered_options false os) s =
    (AddUser.with_orgIds (map (fun p => org_num p.1) (filter (fun p => p.2 = true) os)) s, []).
Proof.
  unfold AddUser.updateOrg. simpl. by rewrite selected_orgs_rendered.
Qed.

(** C22. AddLinode's [updateOrg] sets [orgId] to the id of the first
    selected organisation, and leaves the state alone when none is. *)
Theorem addlinode_updateOrg_reads_selection os s :
  AddLinode.updateOrg (rendered_options false os) s =
    match List.find (fun p => p.2) os with
    | Some p => (AddLinode.with_orgId (org_num p.1) s, [])
    | None => (s, [])
    end.
Proof.
  unfold AddLinode.updateOrg. simpl.
  induction os as [| [o b] os IH]; [done |]. simpl.
  destruct b; simpl; [by rewrite parseInt10_pretty | done].
Qed.

(** C23. The placeholder option is selected by [defaultValue] when the
    select mounts and stays selected under a modifier-click; [updateOrg]
    then stores [parseInt("capture")], that is [NaN], before the ids, and
    the submit button counts it as a selected organisation even when no
    organisation is selected. *)
Theorem adduser_placeholder_nan os s :
  AddUser.updateOrg (rendered_options true os) s =
    (AddUser.with_orgIds (JNaN :: map (fun p => org_num p.1) (filter (fun p => p.2 = true) os)) s, []) /\
  AddUser.submit_disabled (fst (AddUser.updateOrg (rendered_options true os) s)) =
    AddUser.submitting s || negb (is_yes (AddUser.valid s)).
Proof.
  unfold AddUser.updateOrg. simpl. rewrite selected_orgs_rendered. split; [done |].
  unfold AddUser.submit_disabled. simpl.
  by destruct (AddUser.submitting s), (is_yes (AddUser.valid s)).
Qed.
