(* ===== verification/FormWorld.v ===== *)
(** * FormWorld: one mounted creation form among in-flight requests

    A [world] is a mounted form's state, the axios requests still in
    flight (in issue order), every request sent so far, and the calls
    the form made to its parent ([closeReload], [setError]).  [wstep]
    is the event loop: the user fires a DOM event (the form's submit only
    while its button is enabled), the debounce timer elapses, or the
    network settles one in-flight request, with the server's answer or a
    failure.  With [fifo = false] any in-flight request may settle first;
    with [fifo = true] only the oldest, which is the ordering the spec
    requires of validity checks (section 5).

    [wexec] is the same semantics as an executable function over
    [action]s; [wrun_sound] and [wrun_sound_fifo] show that every run it
    computes is a path of [wstep], so concrete scenarios are checked by
    evaluation.  The theorems about the three forms follow. *)

From S2P Require Import Prelude Remote Forms.

Record world (S : Type) := mkWorld {
  w_form : S;
  w_inflight : list request;
  w_sent : list request;
  w_calls : list form_effect
}.
Arguments mkWorld {S} _ _ _ _.
Arguments w_form {S} _.
Arguments w_inflight {S} _.
Arguments w_sent {S} _.
Arguments w_calls {S} _.

(** The requests among a handler's effects, in order. *)
Definition issued (es : list form_effect) : list request :=
  omap (fun e => match e with FIssue r => Some r | _ => None end) es.

Definition is_issue (e : form_effect) : bool :=
  match e with FIssue _ => true | _ => false end.

(** The parent callbacks among a handler's effects, in order. *)
Definition parent_calls (es : list form_effect) : list form_effect :=
  filter (fun e => is_issue e = false) es.

(** The existence checks among a list of requests. *)
Definition checks (rs : list request) : list (kind * string) := omap check_of rs.

(** The number of creation calls among a list of requests. *)
Definition creates (rs : list request) : nat := length (filter (fun r => is_create r = true) rs).

(** The verdict the server's answer to [exists(k, v)] leads to. *)
Definition verdict `{Backend} (k : kind) (v : string) : valid_t :=
  if backend_exists k v then VNo else VYes.

Definition is_set_error (e : form_effect) : bool :=
  match e with FSetError _ _ => true | _ => false end.

(** The form has called [setError]. *)
Definition errored {S} (w : world S) : bool := existsb is_set_error (w_calls w).

Inductive action :=
  | AEvent (ev : form_event)
  | ASettle (i : nat) (fail : option failure).

Section World.
Context `{Backend} {S : Type} (ops : form_ops S).
Implicit Types (w : world S) (s : S).

(** Run a handler on the form and dispatch what it emitted. *)
Definition apply (h : handler S form_effect) w : world S :=
  let res := h (w_form w) in
  mkWorld (fst res) (w_inflight w ++ issued (snd res))
          (w_sent w ++ issued (snd res)) (w_calls w ++ parent_calls (snd res)).

Definition with_inflight (rs : list request) w : world S :=
  mkWorld (w_form w) rs (w_sent w) (w_calls w).

(** The submit event reaches [onSubmit] only while the button is
    enabled; every other event is always possible. *)
Definition event_allowed (ev : form_event) s : bool :=
  match ev with FSubmit => negb (fo_disabled ops s) | _ => true end.

Definition initial : world S := mkWorld (fo_init ops) [] [] [].

Inductive wstep (fifo : bool) : world S -> world S -> Prop :=
  | ws_event ev w :
      event_allowed ev (w_form w) = true ->
      wstep fifo w (apply (fo_handle ops ev) w)
  | ws_settle w l1 r l2 o :
      w_inflight w = l1 ++ r :: l2 ->
      (fifo = true -> l1 = []) ->
      settles r o ->
      wstep fifo w (apply (fo_settled ops r o) (with_inflight (l1 ++ l2) w)).

(** The executable step. *)
Definition wexec w (a : action) : option (world S) :=
  match a with
  | AEvent ev =>
      if event_allowed ev (w_form w) then Some (apply (fo_handle ops ev) w) else None
  | ASettle i f =>
      match w_inflight w !! i with
      | Some r =>
          let o := match f with None => backend_reply r | Some e => Rejected e end in
          Some (apply (fo_settled ops r o)
                 (with_inflight (take i (w_inflight w) ++ drop (Nat.succ i) (w_inflight w)) w))
      | None => None
      end
  end.

Fixpoint wrun w (acts : list action) : option (world S) :=
  match acts with
  | [] => Some w
  | a :: acts' => match wexec w a with Some w' => wrun w' acts' | None => None end
  end.

Lemma wrun_app w acts1 acts2 :
  wrun w (acts1 ++ acts2) = wrun w acts1 ≫= fun w' => wrun w' acts2.
Proof.
  revert w. induction acts1 as [| a acts1 IH]; intros w; simpl; [done |].
  destruct (wexec w a); simpl; [apply IH | done].
Qed.

Definition fifo_action (a : action) : bool :=
  match a with ASettle i _ => bool_decide (i = 0) | AEvent _ => true end.

Lemma wexec_step fifo w a w' :
  (fifo = true -> fifo_action a = true) ->
  wexec w a = Some w' -> wstep fifo w w'.
Proof.
  intros Hf Hex. destruct a as [ev | i f]; simpl in Hex.
  - destruct (event_allowed ev (w_form w)) eqn:E; simplify_eq. by constructor.
  - destruct (w_inflight w !! i) as [r |] eqn:Hi; simplify_eq.
    eapply ws_settle.
    + symmetry. by apply take_drop_middle.
    + intros Hfifo. specialize (Hf Hfifo). simpl in Hf.
      apply bool_decide_eq_true in Hf. by subst.
    + destruct f; [right; eauto | by left].
Qed.

Lemma wrun_rtc fifo w acts w' :
  (fifo = true -> Forall (fun a => fifo_action a = true) acts) ->
  wrun w acts = Some w' -> rtc (wstep fifo) w w'.
Proof.
  revert w. induction acts as [| a acts IH]; intros w Hf Hrun; simpl in Hrun.
  - simplify_eq. constructor.
  - destruct (wexec w a) as [w1 |] eqn:Hex; [| done].
    assert (Hfa : fifo = true -> fifo_action a = true /\
                    Forall (fun a => fifo_action a = true) acts).
    { intros E. specialize (Hf E). by inversion Hf. }
    eapply rtc_l.
    + eapply wexec_step; [| exact Hex]. intros E. by apply Hfa.
    + apply IH; [intros E; by apply Hfa | done].
Qed.

(** Every run of [wexec] is a path of the any-order world. *)
Lemma wrun_sound w acts w' : wrun w acts = Some w' -> rtc (wstep false) w w'.
Proof. apply wrun_rtc. done. Qed.

(** A run that settles only the oldest request is a path of the FIFO world. *)
Lemma wrun_sound_fifo w acts w' :
  forallb fifo_action acts = true -> wrun w acts = Some w' -> rtc (wstep true) w w'.
Proof.
  intros Hall. apply wrun_rtc. intros _. clear -Hall.
  induction acts as [| a acts IH]; simpl in *; [done |].
  apply andb_true_iff in Hall as [Ha Hall]. constructor; auto.
Qed.

Lemma apply_hskip w : apply hskip w = w.
Proof. destruct w. unfold apply. simpl. by rewrite !app_nil_r. Qed.

Lemma creates_app l1 l2 : creates (l1 ++ l2) = creates l1 + creates l2.
Proof. unfold creates. by rewrite filter_app, length_app. Qed.

(** When the promise continuations issue no request, a step that sends
    a new creation call is a user event whose handler issued it. *)
Lemma wstep_new_create fifo w w' :
  (forall r o s, issued (snd (fo_settled ops r o s)) = []) ->
  wstep fifo w w' -> creates (w_sent w) < creates (w_sent w') ->
  exists ev, event_allowed ev (w_form w) = true /\ (w' = apply (fo_handle ops ev) w) /\
             0 < creates (issued (snd (fo_handle ops ev (w_form w)))).
Proof.
  intros Hquiet Hs Hlt. destruct Hs as [ev w Hal | w l1 r l2 o _ _ _]; simpl in Hlt.
  - exists ev. rewrite creates_app in Hlt. split_and!; [done | done | lia].
  - rewrite Hquiet, app_nil_r in Hlt. lia.
Qed.

(** In-order delivery is one of the orders the network may choose. *)
Lemma wstep_fifo_any w w' : wstep true w w' -> wstep false w w'.
Proof. intros []; econstructor; eauto; done. Qed.

(** The parent calls only grow: a [setError] is never undone. *)
Lemma errored_apply h w : errored w = true -> errored (apply h w) = true.
Proof. unfold errored. simpl. rewrite existsb_app. by intros ->. Qed.

Lemma wstep_errored fifo w w' : wstep fifo w w' -> errored w = true -> errored w' = true.
Proof. intros Hs He. destruct Hs; apply errored_apply; exact He. Qed.
End World.

Arguments initial {S} _.
Arguments wstep {_ S} _ _ _ _.
Arguments wrun {_ S} _ _ _.
