(* ===== verification/Sequencing.v ===== *)
(** * Sequencing: validity verdicts under in-order delivery

    The invariant [seq_inv k0] of a form world: the newest existence check
    in flight asks about the field's current value, and once no check is
    in flight (and one was sent, and no [setError] was raised) the
    [valid] field holds the server's verdict on the current value.

    Section [Settle] proves, from laws every form's promise continuations
    satisfy ([settle_laws]), that settling the oldest request preserves
    the invariant.  Section [Immediate] adds the laws of a form that
    checks its field on every change ([immediate_laws]: AddUser and
    AddLinode) and proves the invariant of every FIFO-reachable world.
    AddOrg, whose check is debounced, is treated in [FormProps.v] with the
    same settle lemma. *)

From S2P Require Import Prelude Remote Forms FormWorld.

(** ** List facts about the checks in flight *)

Lemma checks_app l1 l2 : checks (l1 ++ l2) = checks l1 ++ checks l2.
Proof. apply omap_app. Qed.

Lemma checks_cons r l :
  checks (r :: l) = match check_of r with Some kv => kv :: checks l | None => checks l end.
Proof. unfold checks. simpl. by destruct (check_of r). Qed.

Lemma last_checks_cons r l kv :
  last (checks l) = Some kv -> last (checks (r :: l)) = Some kv.
Proof. rewrite checks_cons. destruct (check_of r); [rewrite last_cons|]; intros ->; done. Qed.

#[export] Hint Rewrite checks_app : handler.

(** A world without [setError] came from one without it. *)
Lemma errored_app_false {S} (s : S) i sn c c' :
  errored (mkWorld s i sn (c ++ c')) = false -> existsb is_set_error c = false.
Proof. unfold errored. simpl. rewrite existsb_app. by intros [-> _]%orb_false_iff. Qed.

Section Settle.
Context `{Backend} {S : Type} (ops : form_ops S) (k0 : kind).

Definition seq_inv (w : world S) : Prop :=
  (forall kv, last (checks (w_inflight w)) = Some kv -> kv = (k0, fo_ident ops (w_form w))) /\
  (checks (w_inflight w) = [] -> checks (w_sent w) <> [] -> errored w = false ->
     fo_valid ops (w_form w) = verdict k0 (fo_ident ops (w_form w))).

(** What the promise continuations of a form do: keep the field, issue
    nothing, set [valid] from [exists] on a resolved check, raise
    [setError] on a rejected check, and leave [valid] alone otherwise. *)
Record settle_laws : Prop := {
  sl_ident r o s : fo_ident ops (fst (fo_settled ops r o s)) = fo_ident ops s;
  sl_quiet r o s : issued (snd (fo_settled ops r o s)) = [];
  sl_check k v b s :
    fo_valid ops (fst (fo_settled ops (GetExists k v) (Resolved (RExists b)) s)) =
      if b then VNo else VYes;
  sl_reject k v f s :
    existsb is_set_error (parent_calls (snd (fo_settled ops (GetExists k v) (Rejected f) s))) = true;
  sl_other r o s : check_of r = None ->
    fo_valid ops (fst (fo_settled ops r o s)) = fo_valid ops s
}.

(** A handler that keeps the field and [valid] and issues no check
    preserves the invariant. *)
Lemma seq_inv_quiet h w :
  fo_ident ops (fst (h (w_form w))) = fo_ident ops (w_form w) ->
  fo_valid ops (fst (h (w_form w))) = fo_valid ops (w_form w) ->
  checks (issued (snd (h (w_form w)))) = [] ->
  seq_inv w -> seq_inv (apply h w).
Proof.
  intros Hid Hval Hchk [Hlast Hdone]. unfold seq_inv. simpl.
  rewrite Hid, Hval, !checks_app, Hchk, !app_nil_r. split; [done |].
  intros Hnil Hsent Herr. apply Hdone; [done | done |].
  by apply errored_app_false in Herr.
Qed.

(** A handler that sets the field to [v] and issues exactly the check
    of [v] establishes the invariant, whatever held before. *)
Lemma seq_inv_fresh h w v :
  fo_ident ops (fst (h (w_form w))) = v ->
  checks (issued (snd (h (w_form w)))) = [(k0, v)] ->
  seq_inv (apply h w).
Proof.
  intros Hid Hchk. unfold seq_inv. simpl. rewrite Hid, !checks_app, Hchk. split.
  - rewrite last_app. simpl. by intros kv [= <-].
  - intros Hnil. by apply app_nil in Hnil as [_ ?].
Qed.

Hypothesis Hlaws : settle_laws.

(** Settling the oldest request in flight preserves [seq_inv]. *)
Lemma seq_inv_settle w r l2 o :
  w_inflight w = r :: l2 -> settles r o -> seq_inv w ->
  seq_inv (apply (fo_settled ops r o) (with_inflight l2 w)).
Proof.
  intros Hin Hset [Hlast Hdone]. unfold seq_inv. simpl.
  rewrite (sl_quiet Hlaws), (sl_ident Hlaws), !app_nil_r.
  rewrite Hin in Hlast, Hdone. split.
  - intros kv Hkv. by apply Hlast, last_checks_cons.
  - intros Hnil Hsent Herr.
    destruct (check_of r) as [[k v] |] eqn:Hr.
    + assert (Hkv : (k, v) = (k0, fo_ident ops (w_form w))).
      { apply Hlast. by rewrite checks_cons, Hr, Hnil. }
      destruct r; simpl in Hr; simplify_eq. destruct Hset as [-> | [f ->]].
      * cbn [backend_reply]. by rewrite (sl_check Hlaws).
      * revert Herr. unfold errored. simpl. rewrite existsb_app, (sl_reject Hlaws).
        by rewrite orb_true_r.
    + rewrite (sl_other Hlaws) by done. apply Hdone; [by rewrite checks_cons, Hr | done |].
      by apply errored_app_false in Herr.
Qed.
End Settle.

Section Immediate.
Context `{Backend} {S : Type} (ops : form_ops S) (k0 : kind).

(** A form that checks its field on every change: an input sets the
    field and issues exactly the check of the new value; no other event
    touches the field or [valid], or issues a check. *)
Record immediate_laws : Prop := {
  il_input v s :
    fo_ident ops (fst (fo_handle ops (FInput v) s)) = v /\
    issued (snd (fo_handle ops (FInput v) s)) = [GetExists k0 v];
  il_other ev s : (forall v, ev <> FInput v) ->
    fo_ident ops (fst (fo_handle ops ev s)) = fo_ident ops s /\
    fo_valid ops (fst (fo_handle ops ev s)) = fo_valid ops s /\
    checks (issued (snd (fo_handle ops ev s))) = []
}.

Hypothesis Hsettle : settle_laws ops.
Hypothesis Himm : immediate_laws.

Lemma seq_inv_event ev w : seq_inv ops k0 w -> seq_inv ops k0 (apply (fo_handle ops ev) w).
Proof.
  intros Hinv.
  assert (Hcase : (exists v, ev = FInput v) \/ forall v, ev <> FInput v)
    by (destruct ev; eauto; right; discriminate).
  destruct Hcase as [[v ->] | Hne].
  - destruct (il_input Himm v (w_form w)) as [Hid Hiss].
    apply seq_inv_fresh with v; [done | by rewrite Hiss].
  - destruct (il_other Himm ev (w_form w)) as (Hid & Hval & Hchk); [done |].
    by apply seq_inv_quiet.
Qed.

Lemma seq_inv_step w w' : wstep ops true w w' -> seq_inv ops k0 w -> seq_inv ops k0 w'.
Proof.
  intros Hs. destruct Hs as [ev w _ | w l1 r l2 o Hin Hfifo Hset].
  - apply seq_inv_event.
  - rewrite (Hfifo eq_refl) in Hin |- *. simpl. by apply seq_inv_settle.
Qed.

Lemma seq_inv_initial : seq_inv ops k0 (initial ops).
Proof. split; simpl; [done |]. by intros _ Hsent. Qed.

(** Every FIFO-reachable world satisfies the sequencing invariant. *)
Lemma seq_inv_reachable w : rtc (wstep ops true) (initial ops) w -> seq_inv ops k0 w.
Proof. apply rtc_invariant; [apply seq_inv_step | apply seq_inv_initial]. Qed.
End Immediate.
