(* ===== verification/FormProps.v ===== *)
(** * FormProps: what the three creation forms guarantee, and what not

    The laws of [Sequencing.v] discharged for each form, then the
    properties of the forms in their worlds:
    - sequencing under in-order delivery ([adduser_settled_verdict],
      [addorg_settled_verdict], [addlinode_settled_verdict]);
    - the stale-verdict race when the network reorders responses
      ([adduser_stale_verdict], [addorg_stale_verdict]): the source's
      known bug (spec section 9);
    - submit gating ([addorg_submit_gated], ...): a step that sends a
      creation call is a submit from a state whose [valid] is ['yes'] and
      whose associations are selected, and it sends exactly one call with
      the current field values;
    - debounce coalescing ([addorg_debounce_coalesces]), the absence of
      single-flight submission and the empty-name submission of AddOrg.

    Concrete scenarios run [wrun] on [demo_backend], a server on which
    only ["ac"] is taken, and are lifted to paths by [wrun_sound] and
    [wrun_sound_fifo]. *)

From S2P Require Import Prelude Js Remote Forms FormWorld Sequencing.

(** A server on which only the value ["ac"] is taken, for every kind. *)
Definition demo_backend : Backend :=
  {| backend_exists _ v := String.eqb v "ac";
     backend_orgs := [];
     backend_user _ := None |}.

(** A world the form reaches from its mounting; [fifo] selects in-order
    delivery of the responses. *)
Definition reachable `{Backend} {S} (ops : form_ops S) (fifo : bool) (w : world S) : Prop :=
  rtc (wstep ops fifo) (initial ops) w.

(** The field's check has settled: a check was sent, none is in flight,
    and the form has not called [setError]. *)
Definition quiescent {S} (w : world S) : bool :=
  bool_decide (checks (w_inflight w) = []) && negb (bool_decide (checks (w_sent w) = [])) &&
  negb (errored w).

(** The requests a step sent. *)
Definition sent_by {S} (w w' : world S) : list request := drop (length (w_sent w)) (w_sent w').

Lemma quiescent_spec {S} (w : world S) :
  quiescent w = true ->
  checks (w_inflight w) = [] /\ checks (w_sent w) <> [] /\ errored w = false.
Proof.
  unfold quiescent. intros H. apply andb_true_iff in H as [H He].
  apply andb_true_iff in H as [Hi Hs]. apply negb_true_iff in He, Hs.
  apply bool_decide_eq_true in Hi. apply bool_decide_eq_false in Hs. done.
Qed.

Lemma sent_by_eq {S} (w w' : world S) l : w_sent w' = w_sent w ++ l -> sent_by w w' = l.
Proof. unfold sent_by. intros ->. apply drop_app_length. Qed.

Lemma sent_by_creates `{Backend} {S} (ops : form_ops S) fifo w w' :
  wstep ops fifo w w' -> 0 < creates (sent_by w w') -> creates (w_sent w) < creates (w_sent w').
Proof.
  intros Hs. destruct Hs; unfold sent_by; simpl; rewrite drop_app_length, creates_app; lia.
Qed.

(** Case analysis on everything a continuation matches on. *)
Ltac settle_cases :=
  intros; repeat match goal with
  | r : request |- _ => destruct r
  | o : outcome |- _ => destruct o
  | b : bool |- _ => destruct b
  end; simpl in *; try done.

Section Laws.
Context `{Backend}.

Lemma addorg_settle_laws : settle_laws AddOrg.ops.
Proof. split; settle_cases. Qed.

Lemma adduser_settle_laws : settle_laws AddUser.ops.
Proof. split; settle_cases. Qed.

Lemma addlinode_settle_laws : settle_laws AddLinode.ops.
Proof. split; settle_cases. Qed.

Lemma adduser_immediate_laws : immediate_laws AddUser.ops KUser.
Proof.
  split; [intros; by split |]. intros ev s Hne.
  destruct ev as [v | opts | |]; [by destruct (Hne v) | by split_and! .. |].
  simpl. unfold AddUser.submit. simpl. destruct (AddUser.valid s) eqn:E; simpl; rewrite ?E; by split_and!.
Qed.

Lemma addlinode_immediate_laws : immediate_laws AddLinode.ops KLinode.
Proof.
  split; [intros; by split |]. intros ev s Hne.
  destruct ev as [v | opts | |]; [by destruct (Hne v) | | by split_and! |].
  - simpl. unfold AddLinode.updateOrg. case_match; by split_and!.
  - simpl. unfold AddLinode.submit. simpl. destruct (AddLinode.valid s) eqn:E; simpl; rewrite ?E; by split_and!.
Qed.
End Laws.

(** ** Sequencing under in-order delivery *)

(** C1. AddUser under in-order delivery: in every reachable world where
    a check was sent, none is in flight and no [setError] was raised,
    the [valid] field holds the server's verdict on the current email. *)
Theorem adduser_settled_verdict `{Backend} w :
  reachable AddUser.ops true w -> quiescent w = true ->
  AddUser.valid (w_form w) = verdict KUser (AddUser.email (w_form w)).
Proof.
  intros Hreach (Hi & Hs & He)%quiescent_spec. apply (seq_inv_reachable AddUser.ops KUser);
    [apply adduser_settle_laws | apply adduser_immediate_laws | done | done | done | done].
Qed.

(** The user types "a" then "ac"; both checks settle in order. *)
Definition user_fifo_run : list action :=
  [AEvent (FInput "a"); AEvent (FInput "ac"); ASettle 0 None; ASettle 0 None].

Definition run_or_init {S} (B : Backend) (ops : form_ops S) (acts : list action) : world S :=
  default (initial ops) (@wrun B S ops (initial ops) acts).

Lemma adduser_settled_verdict_witness :
  AddUser.valid (w_form (run_or_init demo_backend AddUser.ops user_fifo_run)) = VNo.
Proof.
  apply (@adduser_settled_verdict demo_backend).
  - apply wrun_sound_fifo with user_fifo_run; reflexivity.
  - reflexivity.
Defined.

(** C20. AddLinode under in-order delivery: once no check is in flight
    (and one was sent, without [setError]), [valid] holds the server's
    verdict on the current name. *)
Theorem addlinode_settled_verdict `{Backend} w :
  reachable AddLinode.ops true w -> quiescent w = true ->
  AddLinode.valid (w_form w) = verdict KLinode (AddLinode.name (w_form w)).
Proof.
  intros Hreach (Hi & Hs & He)%quiescent_spec. apply (seq_inv_reachable AddLinode.ops KLinode);
    [apply addlinode_settle_laws | apply addlinode_immediate_laws | done | done | done | done].
Qed.

Lemma addlinode_settled_verdict_witness :
  AddLinode.valid (w_form (run_or_init demo_backend AddLinode.ops user_fifo_run)) = VNo.
Proof.
  apply (@addlinode_settled_verdict demo_backend).
  - apply wrun_sound_fifo with user_fifo_run; reflexivity.
  - reflexivity.
Defined.

(** ** AddOrg: the debounced check *)

(** The branches of the debounce timer and of [submit]. *)
Lemma addorg_fire_idle s :
  AddOrg.debounce_pending s = false -> AddOrg.debounce_fire s = (s, []).
Proof. intros Hp. unfold AddOrg.debounce_fire. simpl. by rewrite Hp. Qed.

Lemma addorg_fire_empty s :
  AddOrg.debounce_pending s = true -> js_truthy (AddOrg.name s) = false ->
  AddOrg.debounce_fire s = (AddOrg.with_pending false s, []).
Proof.
  intros Hp Ht. unfold AddOrg.debounce_fire. simpl. rewrite Hp, hseq_run.
  unfold AddOrg._checkValidity. simpl. by rewrite Ht.
Qed.

Lemma addorg_fire_check s :
  AddOrg.debounce_pending s = true -> js_truthy (AddOrg.name s) = true ->
  AddOrg.debounce_fire s =
    (AddOrg.with_pending false s, [FIssue (GetExists KOrg (AddOrg.name s))]).
Proof.
  intros Hp Ht. unfold AddOrg.debounce_fire. simpl. rewrite Hp, hseq_run.
  unfold AddOrg._checkValidity. simpl. by rewrite Ht.
Qed.

Lemma addorg_submit_eq s :
  AddOrg.submit s =
    (s, if is_yes (AddOrg.valid s) then [FIssue (PostOrg (AddOrg.name s))] else []).
Proof. unfold AddOrg.submit. simpl. by destruct (is_yes (AddOrg.valid s)). Qed.

Section AddOrgSequencing.
Context `{Backend}.

(** Once the debounce window has elapsed on a non-empty name, the
    sequencing invariant holds. *)
Definition org_inv (w : world AddOrg.state) : Prop :=
  AddOrg.debounce_pending (w_form w) = false ->
  js_truthy (AddOrg.name (w_form w)) = true ->
  seq_inv AddOrg.ops KOrg w.

Lemma addorg_settle_keeps r o s :
  AddOrg.name (fst (AddOrg.on_settled r o s)) = AddOrg.name s /\
  AddOrg.debounce_pending (fst (AddOrg.on_settled r o s)) = AddOrg.debounce_pending s.
Proof. settle_cases. Qed.

Lemma org_inv_quiet h w :
  AddOrg.name (fst (h (w_form w))) = AddOrg.name (w_form w) ->
  AddOrg.debounce_pending (fst (h (w_form w))) = AddOrg.debounce_pending (w_form w) ->
  AddOrg.valid (fst (h (w_form w))) = AddOrg.valid (w_form w) ->
  checks (issued (snd (h (w_form w)))) = [] ->
  org_inv w -> org_inv (apply h w).
Proof.
  intros Hn Hp Hv Hc Hinv Hp' Ht. simpl in Hp', Ht.
  apply seq_inv_quiet; [done | done | done |]. apply Hinv; congruence.
Qed.

Lemma org_inv_step w w' : wstep AddOrg.ops true w w' -> org_inv w -> org_inv w'.
Proof.
  intros Hs Hinv. destruct Hs as [ev w _ | w l1 r l2 o Hin Hfifo Hset].
  - destruct ev as [v | opts | |].
    + by intros Hp.
    + by apply org_inv_quiet.
    + change (fo_handle AddOrg.ops FTimer) with AddOrg.debounce_fire.
      destruct (AddOrg.debounce_pending (w_form w)) eqn:Ep;
        [destruct (js_truthy (AddOrg.name (w_form w))) eqn:Et |].
      * intros _ _. apply seq_inv_fresh with (AddOrg.name (w_form w));
          by rewrite addorg_fire_check.
      * intros _ Ht. change (w_form (apply ?h w)) with (fst (h (w_form w))) in Ht.
        rewrite addorg_fire_empty in Ht by done. simpl in Ht. congruence.
      * apply org_inv_quiet; rewrite ?addorg_fire_idle; done.
    + change (fo_handle AddOrg.ops FSubmit) with AddOrg.submit.
      apply org_inv_quiet; rewrite ?addorg_submit_eq; try done.
      by destruct (is_yes (AddOrg.valid (w_form w))).
  - rewrite (Hfifo eq_refl) in Hin |- *. intros Hp Ht.
    destruct (addorg_settle_keeps r o (w_form w)) as [Hn Hp'].
    apply seq_inv_settle; [apply addorg_settle_laws | done | done |].
    apply Hinv; simpl in *; congruence.
Qed.
End AddOrgSequencing.

(** C3. AddOrg under in-order delivery: in every reachable world where
    the debounce window has elapsed on a non-empty name, a check was
    sent, none is in flight and no [setError] was raised, [valid] holds
    the server's verdict on the current name. *)
Theorem addorg_settled_verdict `{Backend} w :
  reachable AddOrg.ops true w ->
  AddOrg.debounce_pending (w_form w) = false -> js_truthy (AddOrg.name (w_form w)) = true ->
  quiescent w = true ->
  AddOrg.valid (w_form w) = verdict KOrg (AddOrg.name (w_form w)).
Proof.
  intros Hreach Hp Ht (Hi & Hs & He)%quiescent_spec.
  apply (rtc_invariant _ org_inv _ _ org_inv_step) in Hreach;
    [by apply Hreach | by intros _ _; apply seq_inv_initial].
Qed.

(** Scenario A of the spec: "acme" is typed, the window elapses, the
    server answers [exists: false]. *)
Definition org_acme_run : list action :=
  [AEvent (FInput "acme"); AEvent FTimer; ASettle 0 None].

Lemma addorg_settled_verdict_witness :
  AddOrg.valid (w_form (run_or_init demo_backend AddOrg.ops org_acme_run)) = VYes.
Proof.
  apply (@addorg_settled_verdict demo_backend).
  - apply wrun_sound_fifo with org_acme_run; reflexivity.
  - reflexivity.
  - reflexivity.
  - reflexivity.
Defined.

(** ** The stale-verdict race *)

(** The user types "a" then "ac" (taken); the answer for "ac" arrives
    first, the one for "a" last; then an organisation is selected and
    the form submitted. *)
Definition user_race_run : list action :=
  [AEvent (FInput "a"); AEvent (FInput "ac"); ASettle 1 None; ASettle 0 None;
   AEvent (FSelect [mkOption "capture" false; mkOption "1" true]); AEvent FSubmit].

(** C2. AddUser applies whichever check answers last: when responses are
    reordered, the form can settle on ['yes'] for an email the server
    reports as taken, enable its button, and send the creation call. *)
Theorem adduser_stale_verdict :
  exists (B : Backend) (w : world AddUser.state),
    @reachable B _ AddUser.ops false w /\ quiescent w = true /\
    AddUser.valid (w_form w) = VYes /\
    @verdict B KUser (AddUser.email (w_form w)) = VNo /\
    In (PostUser (AddUser.email (w_form w)) (AddUser.orgIds (w_form w))) (w_sent w).
Proof.
  exists demo_backend, (run_or_init demo_backend AddUser.ops user_race_run).
  split; [apply wrun_sound with user_race_run; reflexivity |].
  vm_compute. split_and!; auto.
Qed.

(** The same race through the debounce: the window elapses after "a"
    and after "ac", and the answers arrive in reverse order. *)
Definition org_race_run : list action :=
  [AEvent (FInput "a"); AEvent FTimer; AEvent (FInput "ac"); AEvent FTimer;
   ASettle 1 None; ASettle 0 None; AEvent FSubmit].

(** C4. The 250ms debounce of AddOrg does not sequence its checks: with
    reordered responses the form settles on ['yes'] for a taken name and
    sends the creation call. *)
Theorem addorg_stale_verdict :
  exists (B : Backend) (w : world AddOrg.state),
    @reachable B _ AddOrg.ops false w /\
    AddOrg.debounce_pending (w_form w) = false /\ quiescent w = true /\
    AddOrg.valid (w_form w) = VYes /\
    @verdict B KOrg (AddOrg.name (w_form w)) = VNo /\
    In (PostOrg (AddOrg.name (w_form w))) (w_sent w).
Proof.
  exists demo_backend, (run_or_init demo_backend AddOrg.ops org_race_run).
  split; [apply wrun_sound with org_race_run; reflexivity |].
  vm_compute. split_and!; auto.
Qed.

(** ** Submit gating *)

Lemma adduser_submit_eq s :
  AddUser.submit s =
    (s, if is_yes (AddUser.valid s)
        then [FIssue (PostUser (AddUser.email s) (AddUser.orgIds s))] else []).
Proof. unfold AddUser.submit. simpl. by destruct (is_yes (AddUser.valid s)). Qed.

Lemma addlinode_submit_eq s :
  AddLinode.submit s =
    (s, if is_yes (AddLinode.valid s)
        then [FIssue (PostLinode (AddLinode.name s) (AddLinode.orgId s))] else []).
Proof. unfold AddLinode.submit. simpl. by destruct (is_yes (AddLinode.valid s)). Qed.

Lemma is_yes_true v : is_yes v = true -> v = VYes.
Proof. by destruct v. Qed.

(** A handler branch that issues no creation call. *)
Ltac no_create Hpos :=
  simpl in Hpos; rewrite ?hseq_run in Hpos; unfold creates in Hpos; simpl in Hpos; lia.

(** The creation calls a submit branch issues, counted. *)
Ltac submit_branch E :=
  match goal with
  | Hpos : 0 < creates (issued (snd (?f _))) |- _ =>
      let Hf := fresh in
      first [ rewrite adduser_submit_eq in Hpos | rewrite addorg_submit_eq in Hpos
            | rewrite addlinode_submit_eq in Hpos ];
      destruct (is_yes _) eqn:E; unfold creates in Hpos; simpl in Hpos; [| lia];
      apply is_yes_true in E
  end.

(** A step of the AddOrg world that sends a new creation call is a
    submit from a state whose [valid] is ['yes'], and it sends exactly
    [POST /api/create/org] with the current name.  SystemProps.v states
    the same gating of the three forms in the whole client. *)
Theorem addorg_submit_gated `{Backend} fifo w w' :
  wstep AddOrg.ops fifo w w' -> 0 < creates (sent_by w w') ->
  AddOrg.valid (w_form w) = VYes /\ sent_by w w' = [PostOrg (AddOrg.name (w_form w))].
Proof.
  intros Hs Hlt%(sent_by_creates _ _ _ _ Hs).
  destruct (wstep_new_create AddOrg.ops fifo w w' (sl_quiet _ addorg_settle_laws) Hs Hlt)
    as (ev & _ & -> & Hpos).
  destruct ev as [v | opts | |]; [no_create Hpos | no_create Hpos | |].
  - change (fo_handle AddOrg.ops FTimer) with AddOrg.debounce_fire in Hpos.
    destruct (AddOrg.debounce_pending (w_form w)) eqn:Ep;
      [destruct (js_truthy (AddOrg.name (w_form w))) eqn:Et |].
    + rewrite addorg_fire_check in Hpos by done. no_create Hpos.
    + rewrite addorg_fire_empty in Hpos by done. no_create Hpos.
    + rewrite addorg_fire_idle in Hpos by done. no_create Hpos.
  - change (fo_handle AddOrg.ops FSubmit) with AddOrg.submit in *.
    submit_branch E. split; [done |]. apply sent_by_eq. simpl. by rewrite addorg_submit_eq, E.
Qed.

(** C6. A step of the AddUser world that sends a new creation call is a
    submit from a state whose [valid] is ['yes'] and whose [orgIds] is
    not empty, and it sends exactly [POST /api/create/user] with the
    current email and [orgIds].  A non-empty [orgIds] does not mean an
    organisation is selected: the placeholder's [NaN] counts (C23). *)
Theorem adduser_submit_gated `{Backend} fifo w w' :
  wstep AddUser.ops fifo w w' -> 0 < creates (sent_by w w') ->
  AddUser.valid (w_form w) = VYes /\ AddUser.orgIds (w_form w) <> [] /\
  sent_by w w' = [PostUser (AddUser.email (w_form w)) (AddUser.orgIds (w_form w))].
Proof.
  intros Hs Hlt%(sent_by_creates _ _ _ _ Hs).
  destruct (wstep_new_create AddUser.ops fifo w w' (sl_quiet _ adduser_settle_laws) Hs Hlt)
    as (ev & Hal & -> & Hpos).
  destruct ev as [v | opts | |]; [no_create Hpos | no_create Hpos | no_create Hpos |].
  change (fo_handle AddUser.ops FSubmit) with AddUser.submit in *.
  submit_branch E. simpl in Hal. unfold AddUser.submit_disabled in Hal.
  rewrite E in Hal. split_and!; [done | |].
  - intros Hnil. rewrite Hnil in Hal. by rewrite orb_true_r in Hal.
  - apply sent_by_eq. simpl. by rewrite adduser_submit_eq, E.
Qed.

(** C7. A step of the AddLinode world that sends a new creation call is
    a submit from a state whose [valid] is ['yes'] and with an
    organisation selected, and it sends exactly [POST /api/create/linode]
    with the current name and organisation id. *)
Theorem addlinode_submit_gated `{Backend} fifo w w' :
  wstep AddLinode.ops fifo w w' -> 0 < creates (sent_by w w') ->
  AddLinode.valid (w_form w) = VYes /\ AddLinode.orgId (w_form w) <> None /\
  sent_by w w' = [PostLinode (AddLinode.name (w_form w)) (AddLinode.orgId (w_form w))].
Proof.
  intros Hs Hlt%(sent_by_creates _ _ _ _ Hs).
  destruct (wstep_new_create AddLinode.ops fifo w w' (sl_quiet _ addlinode_settle_laws) Hs Hlt)
    as (ev & Hal & -> & Hpos).
  destruct ev as [v | opts | |]; [no_create Hpos | | no_create Hpos |].
  - simpl in Hpos. unfold AddLinode.updateOrg in Hpos.
    case_match; no_create Hpos.
  - change (fo_handle AddLinode.ops FSubmit) with AddLinode.submit in *.
    submit_branch E. simpl in Hal. unfold AddLinode.submit_disabled in Hal.
    rewrite E in Hal. split_and!; [done | |].
    + intros Hnone. rewrite Hnone in Hal. by rewrite orb_true_r in Hal.
    + apply sent_by_eq. simpl. by rewrite addlinode_submit_eq, E.
Qed.

Definition org_ready : world AddOrg.state := run_or_init demo_backend AddOrg.ops org_acme_run.
Definition org_submitted : world AddOrg.state :=
  run_or_init demo_backend AddOrg.ops (org_acme_run ++ [AEvent FSubmit]).

Lemma addorg_submit_gated_witness :
  AddOrg.valid (w_form org_ready) = VYes /\
  sent_by org_ready org_submitted = [PostOrg (AddOrg.name (w_form org_ready))].
Proof.
  apply (@addorg_submit_gated demo_backend true).
  - apply wexec_step with (AEvent FSubmit); reflexivity.
  - vm_compute. lia.
Defined.

(** "ab" is typed, organisation 1 selected, the check answers. *)
Definition user_ready_run : list action :=
  [AEvent (FInput "ab"); AEvent (FSelect [mkOption "capture" false; mkOption "1" true]);
   ASettle 0 None].
Definition user_ready : world AddUser.state := run_or_init demo_backend AddUser.ops user_ready_run.
Definition user_submitted : world AddUser.state :=
  run_or_init demo_backend AddUser.ops (user_ready_run ++ [AEvent FSubmit]).

Lemma adduser_submit_gated_witness :
  AddUser.valid (w_form user_ready) = VYes /\ AddUser.orgIds (w_form user_ready) <> [] /\
  sent_by user_ready user_submitted =
    [PostUser (AddUser.email (w_form user_ready)) (AddUser.orgIds (w_form user_ready))].
Proof.
  apply (@adduser_submit_gated demo_backend true).
  - apply wexec_step with (AEvent FSubmit); reflexivity.
  - vm_compute. lia.
Defined.

Definition linode_ready_run : list action :=
  [AEvent (FInput "web1"); AEvent (FSelect [mkOption "capture" false; mkOption "2" true]);
   ASettle 0 None].
Definition linode_ready : world AddLinode.state :=
  run_or_init demo_backend AddLinode.ops linode_ready_run.
Definition linode_submitted : world AddLinode.state :=
  run_or_init demo_backend AddLinode.ops (linode_ready_run ++ [AEvent FSubmit]).

Lemma addlinode_submit_gated_witness :
  AddLinode.valid (w_form linode_ready) = VYes /\ AddLinode.orgId (w_form linode_ready) <> None /\
  sent_by linode_ready linode_submitted =
    [PostLinode (AddLinode.name (w_form linode_ready)) (AddLinode.orgId (w_form linode_ready))].
Proof.
  apply (@addlinode_submit_gated demo_backend true).
  - apply wexec_step with (AEvent FSubmit); reflexivity.
  - vm_compute. lia.
Defined.

(** ** Single flight, empty names, coalescing *)

(** C8. Submission is not single-flight: [submitting] is never set, so
    the button stays enabled while a creation call is in flight and a
    second submit sends a second call, even with in-order delivery. *)
Theorem addorg_double_submit :
  exists (B : Backend) (w : world AddOrg.state),
    @reachable B _ AddOrg.ops true w /\
    w_inflight w = [PostOrg "acme"; PostOrg "acme"].
Proof.
  exists demo_backend,
    (run_or_init demo_backend AddOrg.ops (org_acme_run ++ [AEvent FSubmit; AEvent FSubmit])).
  split; [| reflexivity].
  apply wrun_sound_fifo with (org_acme_run ++ [AEvent FSubmit; AEvent FSubmit]); reflexivity.
Qed.

(** "a" is typed and checked; the field is cleared before the answer
    arrives; the window elapses on the empty name; the form is submitted. *)
Definition org_empty_run : list action :=
  [AEvent (FInput "a"); AEvent FTimer; AEvent (FInput ""); ASettle 0 None;
   AEvent FTimer; AEvent FSubmit].

(** C9. AddOrg can send [POST /api/create/org] with an empty name, even
    with in-order delivery: a check answered after the field was cleared
    sets [valid] to ['yes'], and the empty name is never re-checked. *)
Theorem addorg_submits_empty_name :
  exists (B : Backend) (w : world AddOrg.state),
    @reachable B _ AddOrg.ops true w /\
    AddOrg.name (w_form w) = "" /\ AddOrg.valid (w_form w) = VYes /\
    In (PostOrg "") (w_sent w).
Proof.
  exists demo_backend, (run_or_init demo_backend AddOrg.ops org_empty_run).
  split; [apply wrun_sound_fifo with org_empty_run; reflexivity |].
  vm_compute. split_and!; auto.
Qed.

Definition inputs (vs : list string) : list action := map (fun x => AEvent (FInput x)) vs.

Lemma addorg_update_world `{Backend} v w :
  apply (AddOrg.update v) w =
    mkWorld (AddOrg.mkState v (AddOrg.submitting (w_form w)) VUnknown true)
            (w_inflight w) (w_sent w) (w_calls w).
Proof. unfold apply, AddOrg.update. rewrite hseq_run. simpl. by rewrite !app_nil_r. Qed.

Lemma addorg_inputs_run `{Backend} w vs v :
  wrun AddOrg.ops w (inputs (vs ++ [v])) =
    Some (mkWorld (AddOrg.mkState v (AddOrg.submitting (w_form w)) VUnknown true)
                  (w_inflight w) (w_sent w) (w_calls w)).
Proof.
  revert w. induction vs as [| x vs IH]; intros w; simpl; rewrite addorg_update_world; [done |].
  by rewrite IH.
Qed.

(** C10. The debounce coalesces a burst: any run of edits ending in a
    non-empty value [v], followed by the elapsed window, issues exactly
    one check, for [v], and leaves the field ['unknown'] until it settles. *)
Theorem addorg_debounce_coalesces `{Backend} w vs v :
  js_truthy v = true ->
  exists w', wrun AddOrg.ops w (inputs (vs ++ [v]) ++ [AEvent FTimer]) = Some w' /\
    w_sent w' = w_sent w ++ [GetExists KOrg v] /\
    w_inflight w' = w_inflight w ++ [GetExists KOrg v] /\
    AddOrg.name (w_form w') = v /\ AddOrg.valid (w_form w') = VUnknown /\
    AddOrg.debounce_pending (w_form w') = false.
Proof.
  intros Ht. rewrite wrun_app, addorg_inputs_run. simpl. unfold apply. cbn [w_form].
  rewrite addorg_fire_check by done. eexists. split; [reflexivity |]. by split_and!.
Qed.

(** Scenario B of the spec: "a", "ac", "acme" typed fast. *)
Lemma addorg_debounce_coalesces_witness :
  exists w', @wrun demo_backend _ AddOrg.ops (initial AddOrg.ops)
                 (inputs (["a"; "ac"] ++ ["acme"]) ++ [AEvent FTimer]) = Some w' /\
    w_sent w' = w_sent (initial AddOrg.ops) ++ [GetExists KOrg "acme"] /\
    w_inflight w' = w_inflight (initial AddOrg.ops) ++ [GetExists KOrg "acme"] /\
    AddOrg.name (w_form w') = "acme" /\ AddOrg.valid (w_form w') = VUnknown /\
    AddOrg.debounce_pending (w_form w') = false.
Proof. apply (@addorg_debounce_coalesces demo_backend). reflexivity. Defined.
