(* ===== verification/Modal.v ===== *)
(** * Modal: MyModal.js

    [MyModal] is stateless: it renders react-bootstrap's [Modal] from its
    props.  [render] gives what is shown; [affordances] lists the ways
    the user can ask the dialog to close, and [request_close] what each
    one invokes.  [onHide] is wired to [close] unconditionally, so the
    Escape key and a click on the backdrop call [close] even when the
    dialog is not [closeable]; [closeable] only controls the header's
    close button and the footer's Close button.  The callback type [C]
    is the caller's (an App handler in [App.v]). *)

From S2P Require Import Prelude.

Module MyModal.
(** The props [MyModal] receives; [body] is rendered by the caller. *)
Record props (C : Type) := mkProps {
  isVisible : bool;
  closeable : bool;
  close : C;
  title : string
}.
Arguments mkProps {C} _ _ _ _.
Arguments isVisible {C} _.
Arguments closeable {C} _.
Arguments close {C} _.
Arguments title {C} _.

(** What [render] puts on screen. *)
Record view := mkView {
  shown : bool;              (* Modal show *)
  header_close_button : bool; (* Modal.Header closeButton *)
  footer : bool;             (* Modal.Footer with its Close button *)
  shown_title : string
}.

Definition render {C} (p : props C) : view :=
  mkView (isVisible p) (closeable p) (closeable p) (title p).

(** The ways to ask a shown dialog to close. *)
Inductive affordance := HeaderClose | FooterClose | EscapeKey | BackdropClick.

(** Whether an affordance is offered by the rendered dialog. *)
Definition offered {C} (p : props C) (a : affordance) : bool :=
  let v := render p in
  shown v && match a with
             | HeaderClose => header_close_button v
             | FooterClose => footer v
             | EscapeKey | BackdropClick => true    (* onHide *)
             end.

(** The callback an offered affordance invokes. *)
Definition request_close {C} (p : props C) (a : affordance) : option C :=
  if offered p a then Some (close p) else None.

(** C18. A dialog that is not [closeable] offers neither close button,
    but Escape and a click on the backdrop still invoke its [close]
    callback whenever it is shown ([onHide] is wired unconditionally). *)
Theorem noncloseable_still_hides {C} (p : props C) :
  closeable p = false ->
  request_close p HeaderClose = None /\
  request_close p FooterClose = None /\
  request_close p EscapeKey =
    (if isVisible p then Some (close p) else None) /\
  request_close p BackdropClick =
    (if isVisible p then Some (close p) else None).
Proof.
  intros Hc. unfold request_close, offered. simpl. rewrite Hc.
  rewrite !andb_false_r, !andb_true_r. by destruct (isVisible p).
Qed.

(** The error dialog of App.js: shown, not closeable, a no-op close. *)
Definition error_dialog_props : props unit :=
  mkProps true false tt "Something went wrong...".

Lemma noncloseable_still_hides_witness :
  request_close error_dialog_props HeaderClose = None /\
  request_close error_dialog_props FooterClose = None /\
  request_close error_dialog_props EscapeKey =
    (if isVisible error_dialog_props
     then Some (close error_dialog_props) else None) /\
  request_close error_dialog_props BackdropClick =
    (if isVisible error_dialog_props
     then Some (close error_dialog_props) else None).
Proof. apply noncloseable_still_hides. reflexivity. Defined.
End MyModal.
