(* ===== verification/Shell.v ===== *)
(** * Shell: index.js and Header.js

    [index.js] renders, once, a hash router holding the [Header] navbar
    and a [Route] of path ["/"] whose component is App.  [Header.js] is
    a stateless navbar with one link, ["#/"], and OrgDetails' user links
    point to ["#/"] too, so clicking them changes the location.

    The history is [createHashHistory({basename: '', hashType: 'slash'})],
    so the location's pathname is the URL hash with a leading slash
    ([hash_pathname]).  A react-router 4 [Route] without [exact] matches
    a pathname when its path is a prefix on a segment boundary, so the
    root path matches every pathname ([matches_root]).  [render] is what
    [ReactDOM.render] shows for a hash.  [shell_renders_app] shows that App
    is rendered at the same place for every location, so React keeps the
    same App instance when the hash changes: navigating never resets
    App's session, which is why [App.v] and [System.v] can start from
    App's [componentWillMount] and never unmount it. *)

From S2P Require Import Prelude.

Module Header.
(** [<Navbar fluid={true}><Navbar.Header><Navbar.Brand><a href="#/">OrgDemo</a>]. *)
Record view := mkView { fluid : bool; brand_text : string; brand_href : string }.

Definition render : view := mkView true "OrgDemo" "#/".
End Header.

Module Shell.
(** The pathname of a location: [hashType: 'slash'] adds the leading
    slash a hash lacks. *)
Definition hash_pathname (hash : string) : string :=
  match hash with
  | String "/" _ => hash
  | _ => String "/" hash
  end.

(** [<Route path="/">]: not [exact], so it matches every pathname that
    starts at the root. *)
Definition matches_root (pathname : string) : bool :=
  match pathname with String "/" _ => true | _ => false end.

(** What the shell renders in [#root], in order. *)
Inductive node := NHeader (v : Header.view) | NApp.

Definition render (hash : string) : list node :=
  NHeader Header.render :: (if matches_root (hash_pathname hash) then [NApp] else []).

(** App is rendered, after the navbar, for every location. *)
Lemma shell_renders_app hash : render hash = [NHeader Header.render; NApp].
Proof. unfold render, hash_pathname. by repeat case_match. Qed.
End Shell.
