(* ===== verification/OrgDetails.v ===== *)
(** * OrgDetails: OrgDetails.js

    The read-only view App renders once per organisation of its snapshot.
    [render] gives its three parts: the organisation's name, the users
    table, and the linodes table.  A table with no entry shows its
    placeholder ("No Users", "No Linodes") instead of rows.  Each user row
    is a link whose [onTouchTap] calls App's [selectUser] with the user's
    id.  [link_targets] is the list of those ids, in row order.  App's
    session ([App.listed_users] in App.v) takes its clickable user ids
    from it. *)

From S2P Require Import Prelude Remote.

Module OrgDetails.
(** A row of the users table: [<a onTouchTap={() => selectUser(user.id)}>{user.email}</a>]. *)
Record user_link := mkLink { link_email : string; link_target : nat }.

(** A table body: the placeholder row of an empty list, or one row per entry. *)
Inductive rows (A : Type) := Placeholder (text : string) | Items (xs : list A).
Arguments Placeholder {A} _.
Arguments Items {A} _.

Record view := mkView {
  v_name : string;               (* {this.props.org.name} *)
  v_users : rows user_link;
  v_linodes : rows string        (* {linode.name} *)
}.

Definition render (o : org) : view :=
  mkView (org_name o)
    (match org_users o with
     | [] => Placeholder "No Users"
     | us => Items (map (fun u => mkLink (user_email u) (user_id u)) us)
     end)
    (match org_linodes o with
     | [] => Placeholder "No Linodes"
     | ls => Items (map linode_name ls)
     end).

(** The ids the rendered links pass to [selectUser], in row order. *)
Definition link_targets (v : view) : list nat :=
  match v_users v with Placeholder _ => [] | Items ls => map link_target ls end.

Lemma link_targets_render o : link_targets (render o) = map user_id (org_users o).
Proof. unfold render, link_targets. simpl. destruct (org_users o); simpl; [done |]. by rewrite map_map. Qed.
End OrgDetails.
