(* ===== verification/App.v ===== *)
(** * App: the root coordinator (App.js)

    Module [App] holds the component: its [state] record as the
    constructor initialises [this.state], one definition per method,
    the promise continuation of [fetchOrgs] ([orgs_settled]), and from
    [render] the [orgsExist] test, the [disabled] props of the three Add
    buttons and the props of the five [MyModal]s ([modal_props]).

    The world ([aworld], [astep]) is the coordinator in its session: the
    user clicks the page (only while no dialog is shown, since a shown
    react-bootstrap dialog covers the page with its backdrop), uses a
    shown dialog's close affordances or the Refresh button of the error
    dialog, the children call the callbacks App passes them
    ([closeReload] of a form whose creation succeeded, [setError] of any
    child), and the network settles the [GET /api/orgs] calls in flight,
    in any order.  The children themselves are abstracted: any child
    callback may come at any time, which over-approximates them.

    The theorems that follow the model:
    - the dialogs: in every reachable session at most one dialog is
      shown, and once [broke] is set the error dialog is the only one
      ([app_dialogs_exclusive]) and [broke] stays set ([app_broke_terminal]);
    - the callbacks: [closeReload] clears its dialog and re-fetches the
      snapshot exactly once; dismissing an Add dialog clears it without
      a re-fetch; [setError] replaces whatever was shown by the error dialog;
    - the guards: the Add User and Add Linode buttons are disabled while
      there is no organisation (spec scenario D), and they are the only
      guard ([addOrg_unguarded]);
    - scenario C of the spec: a failed first fetch leaves only the error
      dialog, with its message, and no organisation list;
    - App's error dialog ignores every close request. *)

From S2P Require Import Prelude Remote Modal OrgDetails.

(** What App does besides [setState]. *)
Inductive app_effect :=
  | AIssue (r : request)    (* an axios call *)
  | ALog (msg : string)     (* console.error *)
  | AReload.                (* window.location.reload() *)

Module App.
Record state := mkState {
  orgs : option (list org);     (* null until fetched *)
  selectedUserId : option nat;  (* null when no user is selected *)
  addingOrg : bool;
  addingUser : bool;
  addingLinode : bool;
  broke : bool;
  error : option failure;
  errorMsg : string
}.

Definition init : state := mkState None None false false false false None "".

Definition h := handler state app_effect.

Definition with_orgs (o : option (list org)) (s : state) : state :=
  mkState o (selectedUserId s) (addingOrg s) (addingUser s) (addingLinode s)
          (broke s) (error s) (errorMsg s).
Definition with_selected (u : option nat) (s : state) : state :=
  mkState (orgs s) u (addingOrg s) (addingUser s) (addingLinode s)
          (broke s) (error s) (errorMsg s).
Definition with_addingOrg (b : bool) (s : state) : state :=
  mkState (orgs s) (selectedUserId s) b (addingUser s) (addingLinode s)
          (broke s) (error s) (errorMsg s).
Definition with_addingUser (b : bool) (s : state) : state :=
  mkState (orgs s) (selectedUserId s) (addingOrg s) b (addingLinode s)
          (broke s) (error s) (errorMsg s).
Definition with_addingLinode (b : bool) (s : state) : state :=
  mkState (orgs s) (selectedUserId s) (addingOrg s) (addingUser s) b
          (broke s) (error s) (errorMsg s).

(** [resp.data.orgs]: [undefined] (here [None]) on another shape. *)
Definition resp_orgs (r : response) : option (list org) :=
  match r with ROrgs os => Some os | _ => None end.

Definition setError (e : failure) (msg : string) : h :=
  emit (ALog msg) >>>
  set_state (fun s => mkState (orgs s) None false false false true (Some e) msg).

Definition fetchOrgs : h := emit (AIssue GetOrgs).

(** The continuation of [fetchOrgs]'s promise. *)
Definition orgs_settled (o : outcome) : h :=
  match o with
  | Resolved resp => set_state (with_orgs (resp_orgs resp))
  | Rejected e => setError e "Failed fetching orgs"
  end.

Definition componentWillMount : h := fetchOrgs.

Definition selectUser (userId : nat) : h := set_state (with_selected (Some userId)).

Definition unselectUser : h := set_state (with_selected None).

Definition closeReload (action : string) : h :=
  (if String.eqb action "addingOrg" then set_state (with_addingOrg false)
   else if String.eqb action "addingUser" then set_state (with_addingUser false)
   else if String.eqb action "addingLinode" then set_state (with_addingLinode false)
   else emit (ALog ("Invalid action: " ++ action))) >>>
  fetchOrgs.

Definition addOrg : h := set_state (with_addingOrg true).
Definition addUser : h := set_state (with_addingUser true).
Definition addLinode : h := set_state (with_addingLinode true).

(** ** From [render] *)

Definition orgsExist (s : state) : bool :=
  match orgs s with Some (_ :: _) => true | _ => false end.

Definition addOrg_disabled (s : state) : bool := false.
Definition addUser_disabled (s : state) : bool := negb (orgsExist s).
Definition addLinode_disabled (s : state) : bool := negb (orgsExist s).

(** The five dialogs [render] mounts. *)
Inductive modal_id := MUserDetails | MAddOrg | MAddUser | MAddLinode | MError.

#[export] Instance modal_id_eq_dec : EqDecision modal_id.
Proof. solve_decision. Qed.

Definition all_modals : list modal_id := [MUserDetails; MAddOrg; MAddUser; MAddLinode; MError].

Definition modal_props (m : modal_id) (s : state) : MyModal.props h :=
  match m with
  | MUserDetails =>
      MyModal.mkProps (bool_decide (selectedUserId s <> None)) true unselectUser "User details"
  | MAddOrg =>
      MyModal.mkProps (addingOrg s) true (set_state (with_addingOrg false)) "Add Organization"
  | MAddUser =>
      MyModal.mkProps (addingUser s) true (set_state (with_addingUser false)) "Add user"
  | MAddLinode =>
      MyModal.mkProps (addingLinode s) true (set_state (with_addingLinode false)) "Add linode"
  | MError =>
      MyModal.mkProps (broke s) false hskip "Something went wrong..."
  end.

Definition modal_visible (m : modal_id) (s : state) : bool := MyModal.isVisible (modal_props m s).

(** The dialogs shown at once. *)
Definition visible_modals (s : state) : list modal_id :=
  filter (fun m => modal_visible m s = true) all_modals.

(** The user links on the page: one [OrgDetails] per organisation
    while [orgsExist], none otherwise ("Add an organization to get
    started!"). *)
Definition listed_users (s : state) : list nat :=
  match orgs s with
  | Some os =>
      if orgsExist s then concat (map (fun o => OrgDetails.link_targets (OrgDetails.render o)) os)
      else []
  | None => []
  end.

(** The [closeReload] prop each form receives. *)
Definition form_action (k : kind) : string :=
  match k with KOrg => "addingOrg" | KUser => "addingUser" | KLinode => "addingLinode" end.
End App.

(** ** The coordinator's session *)

Inductive app_event :=
  | ClickAddOrg | ClickAddUser | ClickAddLinode   (* the three Add buttons *)
  | ClickUser (id : nat)                          (* a user link of OrgDetails *)
  | DialogClose (m : App.modal_id) (a : MyModal.affordance)
  | ClickRefresh                                  (* the error dialog's Refresh *)
  | FormCloseReload (k : kind)                    (* a form's closeReload prop *)
  | ChildSetError (e : failure) (msg : string).   (* a child's setError prop *)

(** The page under the dialogs takes clicks only while no dialog is shown. *)
Definition page_enabled (s : App.state) : bool := bool_decide (App.visible_modals s = []).

(** The App handler an event runs, if the event can happen. *)
Definition event_handler (ev : app_event) (s : App.state) : option App.h :=
  match ev with
  | ClickAddOrg =>
      if page_enabled s && negb (App.addOrg_disabled s) then Some App.addOrg else None
  | ClickAddUser =>
      if page_enabled s && negb (App.addUser_disabled s) then Some App.addUser else None
  | ClickAddLinode =>
      if page_enabled s && negb (App.addLinode_disabled s) then Some App.addLinode else None
  | ClickUser id =>
      if page_enabled s && bool_decide (id ∈ App.listed_users s)
      then Some (App.selectUser id) else None
  | DialogClose m a => MyModal.request_close (App.modal_props m s) a
  | ClickRefresh => if App.broke s then Some (emit AReload) else None
  | FormCloseReload k => Some (App.closeReload (App.form_action k))
  | ChildSetError e msg => Some (App.setError e msg)
  end.

Record aworld := mkAWorld {
  a_state : App.state;
  a_inflight : list request;
  a_effects : list app_effect
}.

Definition a_issued (es : list app_effect) : list request :=
  omap (fun e => match e with AIssue r => Some r | _ => None end) es.

(** Run an App handler and record what it emitted. *)
Definition aapply (h : App.h) (w : aworld) : aworld :=
  let res := h (a_state w) in
  mkAWorld (fst res) (a_inflight w ++ a_issued (snd res)) (a_effects w ++ snd res).

(** After [componentWillMount]. *)
Definition app_initial : aworld := aapply App.componentWillMount (mkAWorld App.init [] []).

Section AppWorld.
Context `{Backend}.

Inductive astep : aworld -> aworld -> Prop :=
  | as_event ev w h :
      event_handler ev (a_state w) = Some h -> astep w (aapply h w)
  | as_settle w l1 r l2 o :
      a_inflight w = l1 ++ r :: l2 -> settles r o ->
      astep w (aapply (App.orgs_settled o) (mkAWorld (a_state w) (l1 ++ l2) (a_effects w))).

Inductive aaction := AEv (ev : app_event) | ASet (i : nat) (fail : option failure).

Definition aexec (w : aworld) (a : aaction) : option aworld :=
  match a with
  | AEv ev => h ← event_handler ev (a_state w); Some (aapply h w)
  | ASet i f =>
      r ← a_inflight w !! i;
      let o := match f with None => backend_reply r | Some e => Rejected e end in
      Some (aapply (App.orgs_settled o)
             (mkAWorld (a_state w) (take i (a_inflight w) ++ drop (Nat.succ i) (a_inflight w))
                       (a_effects w)))
  end.

Fixpoint arun (w : aworld) (acts : list aaction) : option aworld :=
  match acts with
  | [] => Some w
  | a :: acts' => w' ← aexec w a; arun w' acts'
  end.

Lemma aexec_step w a w' : aexec w a = Some w' -> astep w w'.
Proof.
  destruct a as [ev | i f]; simpl.
  - destruct (event_handler ev (a_state w)) as [h |] eqn:E; intros; simplify_eq/=.
    by apply (as_event ev).
  - destruct (a_inflight w !! i) as [r |] eqn:Hi; intros; simplify_eq/=.
    eapply as_settle; [symmetry; by apply take_drop_middle |].
    destruct f; [right; eauto | by left].
Qed.

(** Every run of [aexec] is a path of the session. *)
Lemma arun_sound w acts w' : arun w acts = Some w' -> rtc astep w w'.
Proof.
  revert w. induction acts as [| a acts IH]; intros w; simpl; [intros [= ->]; apply rtc_refl |].
  destruct (aexec w a) as [w1 |] eqn:E; simpl; [| done].
  intros Hrun. eapply rtc_l; [by eapply aexec_step | by apply IH].
Qed.
End AppWorld.

(** ** The dialogs shown, counted *)

Lemma length_visible_modals s :
  length (App.visible_modals s) =
    Nat.b2n (bool_decide (App.selectedUserId s <> None)) + Nat.b2n (App.addingOrg s) +
    Nat.b2n (App.addingUser s) + Nat.b2n (App.addingLinode s) + Nat.b2n (App.broke s).
Proof.
  destruct s as [o sel ao au al b e m]. unfold App.visible_modals, App.modal_visible. simpl.
  destruct sel, ao, au, al, b; reflexivity.
Qed.

(** Case analysis on the dialog flags of a state given by its fields,
    then count. *)
Ltac count_dialogs :=
  rewrite ?length_visible_modals in *; simpl in *;
  repeat match goal with
  | b : bool |- _ => destruct b
  | u : option nat |- _ => destruct u
  end; simpl in *; lia.

(** Split on the guards of an event's [if]s in hypothesis [H]. *)
Ltac guard_cases H :=
  repeat match type of H with context [if ?c then _ else _] => destruct c end;
  simplify_eq/=.

Definition one_dialog (s : App.state) : Prop := length (App.visible_modals s) <= 1.

Lemma page_enabled_none s : page_enabled s = true -> length (App.visible_modals s) = 0.
Proof. unfold page_enabled. rewrite bool_decide_eq_true. by intros ->. Qed.

(** Split an event of the session into the App handlers it can run,
    with the state given by its fields. *)
Ltac event_cases ev s Hev :=
  destruct s as [o sel ao au al b er m0];
  destruct ev as [| | | id | m a | | k | e msg]; simpl in Hev;
  try (destruct (page_enabled _) eqn:Ep; simpl in Hev; [| done];
       apply page_enabled_none in Ep);
  try (unfold MyModal.request_close in Hev; destruct (MyModal.offered _ _); [| done];
       destruct m);
  guard_cases Hev; try destruct k;
  unfold App.closeReload, App.setError; rewrite ?hseq_run; simpl.

(** The dialog flags a handler leaves, for the handlers of the session. *)
Lemma one_dialog_event ev s h :
  event_handler ev s = Some h -> one_dialog s -> one_dialog (fst (h s)).
Proof. unfold one_dialog. intros Hev Hone. event_cases ev s Hev; count_dialogs. Qed.

(** No handler of the session clears [broke]. *)
Lemma broke_event ev s h :
  event_handler ev s = Some h -> App.broke s = true -> App.broke (fst (h s)) = true.
Proof. intros Hev Hb. event_cases ev s Hev; done. Qed.

Lemma orgs_settled_flags o s :
  (one_dialog s -> one_dialog (fst (App.orgs_settled o s))) /\
  (App.broke s = true -> App.broke (fst (App.orgs_settled o s)) = true).
Proof.
  unfold one_dialog. destruct s as [os sel ao au al b er m0].
  destruct o; unfold App.orgs_settled, App.setError; rewrite ?hseq_run; simpl;
    split; intros; try done; count_dialogs.
Qed.

Section Session.
Context `{Backend}.

Lemma astep_one_dialog w w' : astep w w' -> one_dialog (a_state w) -> one_dialog (a_state w').
Proof. intros []; simpl; [by eapply one_dialog_event | apply orgs_settled_flags]. Qed.

Lemma astep_broke w w' : astep w w' -> App.broke (a_state w) = true -> App.broke (a_state w') = true.
Proof. intros []; simpl; [by eapply broke_event | apply orgs_settled_flags]. Qed.

Lemma reachable_one_dialog w : rtc astep app_initial w -> one_dialog (a_state w).
Proof.
  apply (rtc_invariant _ (fun w => one_dialog (a_state w)));
    [apply astep_one_dialog | unfold one_dialog; vm_compute; lia].
Qed.
End Session.

Lemma broke_only_error s :
  one_dialog s -> App.broke s = true -> App.visible_modals s = [App.MError].
Proof.
  unfold one_dialog. destruct s as [os sel ao au al b er m0]. simpl. intros Hone ->.
  rewrite length_visible_modals in Hone. simpl in Hone.
  destruct sel, ao, au, al; simpl in Hone; try lia; reflexivity.
Qed.

(** C11. In every reachable session at most one dialog is shown, and
    once [broke] is set the error dialog is the only one shown. *)
Theorem app_dialogs_exclusive `{Backend} w :
  rtc astep app_initial w ->
  length (App.visible_modals (a_state w)) <= 1 /\
  (App.broke (a_state w) = true -> App.visible_modals (a_state w) = [App.MError]).
Proof.
  intros Hr. pose proof (reachable_one_dialog w Hr) as Hone.
  split; [done |]. by apply broke_only_error.
Qed.

(** C12. The fatal error is terminal: no sequence of events, callbacks
    or responses clears [broke] once it is set. *)
Theorem app_broke_terminal `{Backend} w w' :
  rtc astep w w' -> App.broke (a_state w) = true -> App.broke (a_state w') = true.
Proof.
  intros Hr Hb. apply (rtc_invariant astep (fun w => App.broke (a_state w) = true) w w');
    [apply astep_broke | done | done].
Qed.

(** The first fetch fails with a transport error (spec scenario C). *)
Definition failed_start (B : Backend) : aworld :=
  default app_initial (@arun B app_initial [ASet 0 (Some Transport)]).

(** The session that follows: a late form [closeReload] arrives, its
    re-fetch succeeds, and the user presses Escape on the error dialog. *)
Definition failed_later (B : Backend) : aworld :=
  default app_initial (@arun B (failed_start B)
    [AEv (FormCloseReload KOrg); ASet 0 None; AEv (DialogClose App.MError MyModal.EscapeKey)]).

Definition demo_app_backend : Backend :=
  {| backend_exists _ _ := false;
     backend_orgs := [mkOrg 1 "acme" [mkUserRef 7 "a@acme"] []];
     backend_user _ := None |}.

Lemma app_dialogs_exclusive_witness :
  length (App.visible_modals (a_state (failed_start demo_app_backend))) <= 1 /\
  (App.broke (a_state (failed_start demo_app_backend)) = true ->
   App.visible_modals (a_state (failed_start demo_app_backend)) = [App.MError]).
Proof.
  apply (@app_dialogs_exclusive demo_app_backend).
  apply arun_sound with [ASet 0 (Some Transport)]. reflexivity.
Defined.

Lemma app_broke_terminal_witness :
  App.broke (a_state (failed_later demo_app_backend)) = true.
Proof.
  apply (@app_broke_terminal demo_app_backend (failed_start demo_app_backend)).
  - apply arun_sound with
      [AEv (FormCloseReload KOrg); ASet 0 None; AEv (DialogClose App.MError MyModal.EscapeKey)].
    reflexivity.
  - reflexivity.
Defined.

(** ** The callbacks *)

(** The flag of the Add dialog of a kind, cleared. *)
Definition clear_adding (k : kind) (s : App.state) : App.state :=
  match k with
  | KOrg => App.with_addingOrg false s
  | KUser => App.with_addingUser false s
  | KLinode => App.with_addingLinode false s
  end.

(** The Add dialog of a kind. *)
Definition add_modal (k : kind) : App.modal_id :=
  match k with KOrg => App.MAddOrg | KUser => App.MAddUser | KLinode => App.MAddLinode end.

(** C13. The [closeReload] prop a form receives clears exactly its own
    dialog's flag and issues exactly one [GET /api/orgs]: the snapshot is
    re-fetched whole, never patched. *)
Theorem closeReload_refetches k s :
  App.closeReload (App.form_action k) s = (clear_adding k s, [AIssue GetOrgs]).
Proof. destruct k; unfold App.closeReload; rewrite hseq_run; reflexivity. Qed.

(** C14. Dismissing an Add dialog (its header button, its Close button,
    Escape or the backdrop) clears its flag and issues no request: unlike
    [closeReload], a dismissal does not re-fetch the snapshot. *)
Theorem dismiss_add_dialog_no_refetch k a s h :
  MyModal.request_close (App.modal_props (add_modal k) s) a = Some h ->
  h s = (clear_adding k s, []).
Proof.
  unfold MyModal.request_close. destruct (MyModal.offered _ _); [| done].
  intros [= <-]. by destruct k.
Qed.

Definition adding_org_state : App.state := App.with_addingOrg true App.init.

Lemma dismiss_add_dialog_no_refetch_witness :
  @set_state App.state app_effect (App.with_addingOrg false) adding_org_state =
  (clear_adding KOrg adding_org_state, []).
Proof. apply (dismiss_add_dialog_no_refetch KOrg MyModal.FooterClose). reflexivity. Defined.

(** C15. [setError] pre-empts every dialog: afterwards the error dialog,
    with the given message, is the only one shown, and nothing but the
    console log is emitted. *)
Theorem setError_preempts e msg s :
  App.visible_modals (fst (App.setError e msg s)) = [App.MError] /\
  App.errorMsg (fst (App.setError e msg s)) = msg /\
  snd (App.setError e msg s) = [ALog msg].
Proof. unfold App.setError. rewrite hseq_run. split_and!; reflexivity. Qed.

(** ** Scenarios and guards *)

(** C16. Scenario D of the spec: while there is no organisation, the Add
    User and Add Linode buttons are disabled, so neither dialog can be
    opened. *)
Theorem no_orgs_no_dependent_create s :
  App.orgsExist s = false ->
  event_handler ClickAddUser s = None /\ event_handler ClickAddLinode s = None.
Proof.
  intros Hno. simpl. unfold App.addUser_disabled, App.addLinode_disabled.
  rewrite Hno. simpl. by rewrite andb_false_r.
Qed.

Definition empty_orgs_state : App.state := App.with_orgs (Some []) App.init.

Lemma no_orgs_no_dependent_create_witness :
  event_handler ClickAddUser empty_orgs_state = None /\
  event_handler ClickAddLinode empty_orgs_state = None.
Proof. apply no_orgs_no_dependent_create. reflexivity. Defined.

(** C17. The handlers themselves are unguarded: [addOrg] on a [broke]
    state opens the Add Organization dialog beside the error dialog.
    Only the error dialog's backdrop keeps the page's buttons from
    reaching it (spec: the calls should be no-ops). *)
Theorem addOrg_unguarded s :
  App.broke s = true ->
  App.MAddOrg ∈ App.visible_modals (fst (App.addOrg s)) /\
  App.MError ∈ App.visible_modals (fst (App.addOrg s)).
Proof.
  destruct s as [os sel ao au al b er m0]. simpl. intros ->.
  destruct sel, au, al; vm_compute; split; by repeat constructor.
Qed.

Definition broke_state : App.state := fst (App.setError Transport "Failed fetching orgs" App.init).

Lemma addOrg_unguarded_witness :
  App.MAddOrg ∈ App.visible_modals (fst (App.addOrg broke_state)) /\
  App.MError ∈ App.visible_modals (fst (App.addOrg broke_state)).
Proof. apply addOrg_unguarded. reflexivity. Defined.

(** ** MyModal *)

(** App's error dialog ignores every close request: its [close] is
    [() => {}], so whatever affordance reaches it leaves the state as it
    is and emits nothing. *)
Theorem error_dialog_close_noop a s h :
  MyModal.request_close (App.modal_props App.MError s) a = Some h -> h s = (s, []).
Proof. unfold MyModal.request_close. destruct (MyModal.offered _ _); [| done]. by intros [= <-]. Qed.

Lemma error_dialog_close_noop_witness :
  @hskip App.state app_effect broke_state = (broke_state, []).
Proof. apply (error_dialog_close_noop MyModal.EscapeKey). reflexivity. Defined.
