(* ===== verification/DialogSpec.v ===== *)
(** * DialogSpec: the DialogState of the spec, refined by App

    Section 3 of the spec describes the coordinator's dialogs as one sum
    type, [DialogState]: no dialog, one of the three creation dialogs,
    the details of a user, or the fatal error with its message.  Section
    4.4 gives its transitions: [openCreate] and [selectUser] from no
    dialog, their closing back to none, and [reportError] from any state
    to the fatal error.  [dialog] and [dstep] are that abstract machine,
    modelled from the spec.

    App keeps the same information in separate fields: [selectedUserId],
    three [adding*] flags, and [broke] with [errorMsg].  [dialog_of]
    reads the abstract state off them.  The reading is faithful on the
    states where at most one dialog is shown, which are all the
    reachable ones (App.v).  The refinement theorem states that every
    step of App's session is a [dstep] of the abstract machine or leaves
    its state unchanged. *)

From S2P Require Import Prelude Remote Modal OrgDetails App.

Inductive dialog :=
  | DNone
  | DAddingOrg | DAddingUser | DAddingLinode
  | DViewingUser (id : nat)
  | DFatal (msg : string).

Definition adding (k : kind) : dialog :=
  match k with KOrg => DAddingOrg | KUser => DAddingUser | KLinode => DAddingLinode end.

(** The transitions of section 4.4. *)
Inductive dstep : dialog -> dialog -> Prop :=
  | ds_open k : dstep DNone (adding k)                    (* openCreate(kind) *)
  | ds_close k : dstep (adding k) DNone                   (* closeAndReload(kind), dismissal *)
  | ds_select id : dstep DNone (DViewingUser id)          (* selectUser(id) *)
  | ds_unselect id : dstep (DViewingUser id) DNone        (* unselectUser() *)
  | ds_fatal d msg : dstep d (DFatal msg).                (* reportError(error, message) *)

(** The abstract state App's fields encode. *)
Definition dialog_of (s : App.state) : dialog :=
  if App.broke s then DFatal (App.errorMsg s)
  else match App.selectedUserId s with
       | Some id => DViewingUser id
       | None =>
           if App.addingOrg s then DAddingOrg
           else if App.addingUser s then DAddingUser
           else if App.addingLinode s then DAddingLinode
           else DNone
       end.

(** A step of the abstract machine, or none. *)
Definition dstep_or_stay (d d' : dialog) : Prop := d' = d \/ dstep d d'.

(** Close a [dstep_or_stay] goal on concrete dialogs. *)
Ltac solve_dstep :=
  unfold dstep_or_stay; simpl;
  first [ left; reflexivity
        | right; first [ apply (ds_open KOrg) | apply (ds_open KUser) | apply (ds_open KLinode)
                       | apply (ds_close KOrg) | apply (ds_close KUser) | apply (ds_close KLinode)
                       | constructor ] ].

Lemma dialog_event ev s h :
  one_dialog s -> event_handler ev s = Some h -> dstep_or_stay (dialog_of s) (dialog_of (fst (h s))).
Proof.
  unfold one_dialog. intros Hone Hev. event_cases ev s Hev;
    rewrite ?length_visible_modals in *; simpl in *;
    repeat match goal with
    | b : bool |- _ => destruct b
    | u : option nat |- _ => destruct u
    end; simpl in *; try lia; solve_dstep.
Qed.

Lemma dialog_settled o s : dstep_or_stay (dialog_of s) (dialog_of (fst (App.orgs_settled o s))).
Proof.
  destruct o; unfold App.orgs_settled; [left; by destruct s |].
  unfold App.setError. rewrite hseq_run. solve_dstep.
Qed.

Lemma astep_dialog `{Backend} w w' :
  astep w w' -> one_dialog (a_state w) -> dstep_or_stay (dialog_of (a_state w)) (dialog_of (a_state w')).
Proof. intros [ev w0 h Hev | w0 l1 r l2 o _ _] Hone; simpl; [by eapply dialog_event | apply dialog_settled]. Qed.

(** C33. App implements the spec's DialogState machine step by step:
    every step of a reachable session either leaves the dialog state
    unchanged or is one transition of section 4.4 (open a creation
    dialog or a user's details from none, close them back to none, enter
    the fatal error). *)
Theorem app_refines_dialog_spec `{Backend} w w' :
  rtc astep app_initial w -> astep w w' ->
  dstep_or_stay (dialog_of (a_state w)) (dialog_of (a_state w')).
Proof. intros Hr Hs. apply (astep_dialog w w' Hs), reachable_one_dialog, Hr. Qed.

Lemma app_refines_dialog_spec_witness :
  dstep_or_stay (dialog_of (a_state app_initial)) (dialog_of (a_state (failed_start demo_app_backend))).
Proof.
  apply (@app_refines_dialog_spec demo_app_backend); [apply rtc_refl |].
  apply (aexec_step _ (ASet 0 (Some Transport))). reflexivity.
Defined.

(** The fatal error is terminal in the abstract machine: only another
    failure follows it, with its own message. *)
Lemma dstep_fatal msg d : dstep (DFatal msg) d -> exists msg', d = DFatal msg'.
Proof. inversion 1; subst; [by destruct k | eauto]. Qed.
