(* ===== verification/UserDetails.v ===== *)
(** * UserDetails: UserDetails.js

    The body of App's "User details" dialog.  On mount it fetches
    [GET /api/user/{userId}], unless [userId] is falsy ([null] or [0]).
    It stores [resp.data.user], or calls App's [setError] when the fetch
    fails.  [render] shows "Loading..." while [user] is [null].  Otherwise
    it shows the email, the organisation names, and each linode with the
    name of its organisation ([getOrgNameById]).

    [udstep] is the component's own world: the single fetch settles with
    the server's answer or a failure.  Its theorems: [getOrgNameById] is
    [List.find] in disguise; a positive id ends in the server's details
    or in [setError]; the id [0] is never fetched and the dialog shows
    "Loading..." for good. *)

From S2P Require Import Prelude Js Remote.

(** [this.state.user]: [null] before the answer, [undefined] when the
    answer has no [user] field, or the user. *)
Inductive user_field := UNull | UUndefined | UUser (u : user_detail).

(** What the component does besides [setState]. *)
Inductive ud_effect :=
  | UIssue (r : request)                     (* an axios call *)
  | USetError (e : failure) (msg : string).  (* this.props.setError(err, msg) *)

Module UserDetails.
Record state := mkState { user : user_field }.

Definition init : state := mkState UNull.

Definition h := handler state ud_effect.

(** [componentWillMount]: [if (!this.props.userId) return;] skips [null]
    and [0]. *)
Definition componentWillMount (userId : option nat) : h :=
  match userId with
  | Some (S _ as id) => emit (UIssue (GetUser id))
  | _ => hskip
  end.

(** [resp.data.user]. *)
Definition resp_user (r : response) : user_field :=
  match r with RUser u => UUser u | _ => UUndefined end.

(** The promise continuations of the fetch. *)
Definition user_settled (o : outcome) : h :=
  match o with
  | Resolved resp => set_state (fun _ => mkState (resp_user resp))
  | Rejected e => emit (USetError e "failed fetching user details")
  end.

(** The loop of [getOrgNameById]; [None] is [undefined]. *)
Fixpoint getOrgNameById (orgs : list org_ref) (id : nat) : option string :=
  match orgs with
  | [] => None
  | o :: os => if ref_id o =? id then Some (ref_name o) else getOrgNameById os id
  end.

(** What [render] shows; [Crash] is the [TypeError] of reading
    [this.state.user.email] when [user] is [undefined]. *)
Inductive view :=
  | Loading
  | Crash
  | Details (email : string) (org_names : list string)
            (linode_rows : list (string * option string)).

Definition render (s : state) : view :=
  match user s with
  | UNull => Loading
  | UUndefined => Crash
  | UUser u =>
      Details (detail_email u) (map ref_name (detail_orgs u))
        (map (fun l => (linode_name l, getOrgNameById (detail_orgs u) (linode_org l)))
             (detail_linodes u))
  end.
End UserDetails.

(** ** The component's world *)

Record udworld := mkUDWorld {
  ud_state : UserDetails.state;
  ud_inflight : list request;
  ud_sent : list request;
  ud_calls : list ud_effect   (* the setError calls made to App *)
}.

Definition ud_issued (e : ud_effect) : option request :=
  match e with UIssue r => Some r | _ => None end.

Definition is_uissue (e : ud_effect) : bool :=
  match e with UIssue _ => true | _ => false end.

(** Run a handler: requests go in flight, the other effects are calls to App. *)
Definition ud_apply (hd : UserDetails.h) (w : udworld) : udworld :=
  let res := hd (ud_state w) in
  let rs := omap ud_issued (snd res) in
  mkUDWorld (fst res) (ud_inflight w ++ rs) (ud_sent w ++ rs)
            (ud_calls w ++ filter (fun e => is_uissue e = false) (snd res)).

(** The world just after the dialog mounted the component. *)
Definition ud_mounted (userId : option nat) : udworld :=
  ud_apply (UserDetails.componentWillMount userId) (mkUDWorld UserDetails.init [] [] []).

Inductive udstep `{Backend} : udworld -> udworld -> Prop :=
  | uds_settle w l1 r l2 o :
      ud_inflight w = l1 ++ r :: l2 -> settles r o ->
      udstep w (ud_apply (UserDetails.user_settled o)
                  (mkUDWorld (ud_state w) (l1 ++ l2) (ud_sent w) (ud_calls w))).

Definition ud_reachable `{Backend} (userId : option nat) (w : udworld) : Prop :=
  rtc udstep (ud_mounted userId) w.

(** The states of the component after mounting with the positive id [n]:
    the fetch in flight, the server's user stored, or [setError] called. *)
Definition ud_inv `{Backend} (n : nat) (w : udworld) : Prop :=
  (ud_state w = UserDetails.init /\ ud_inflight w = [GetUser (S n)] /\ ud_calls w = []) \/
  (exists u, backend_user (S n) = Some u /\ ud_state w = UserDetails.mkState (UUser u) /\
             ud_inflight w = [] /\ ud_calls w = []) \/
  (exists e, ud_state w = UserDetails.init /\ ud_inflight w = [] /\
             ud_calls w = [USetError e "failed fetching user details"]).

Lemma inflight_single_split {A} (x r : A) l1 l2 : [x] = l1 ++ r :: l2 -> l1 = [] /\ r = x /\ l2 = [].
Proof. destruct l1 as [| ? [|]]; simpl; intros; simplify_eq; auto. Qed.

Lemma inflight_nil_split {A} (r : A) l1 l2 : [] <> l1 ++ r :: l2.
Proof. destruct l1; discriminate. Qed.

Section UDWorld.
Context `{Backend}.

Lemma ud_inv_step n w w' : udstep w w' -> ud_inv n w -> ud_inv n w'.
Proof.
  intros Hstep Hinv. inversion Hstep as [w0 l1 r l2 o Hin Hs]; subst w0 w'.
  destruct Hinv as [(Hst & Hfl & Hc) | [(u & _ & _ & Hfl & _) | (e & _ & Hfl & _)]];
    rewrite Hfl in Hin; [| by apply inflight_nil_split in Hin..].
  apply inflight_single_split in Hin as (-> & -> & ->).
  destruct Hs as [-> | [f ->]]; unfold ud_inv; simpl; rewrite ?Hst, ?Hc.
  - destruct (backend_user (S n)) as [u |] eqn:Hu; simpl.
    + right; left. eexists. naive_solver.
    + right; right. eexists. naive_solver.
  - right; right. eexists. naive_solver.
Qed.

Lemma ud_inv_mounted n : ud_inv n (ud_mounted (Some (S n))).
Proof. left. naive_solver. Qed.

Lemma ud_mounted_zero_stuck w : ~ udstep (ud_mounted (Some 0)) w.
Proof. inversion 1 as [w0 l1 r l2 o Hin _]. by apply inflight_nil_split in Hin. Qed.
End UDWorld.

(** ** Properties *)

(** C24. [getOrgNameById] returns the name of the first organisation of
    the list whose id is [id], and [undefined] when there is none: the
    loop is [List.find] followed by [.name]. *)
Theorem getOrgNameById_find orgs id :
  UserDetails.getOrgNameById orgs id = ref_name <$> List.find (fun o => ref_id o =? id) orgs.
Proof. induction orgs as [| o os IH]; simpl; [done |]. by destruct (ref_id o =? id). Qed.

(** C25. After mounting with a positive [userId] the component is, at
    every point of every run, in one of three states: the fetch of
    [/api/user/{userId}] in flight and "Loading..." shown; the server's
    user for that id stored; or the state untouched and App's [setError]
    called once with "failed fetching user details".  In particular
    [render] never reads a field of an [undefined] user. *)
Theorem userdetails_fetch_outcome `{Backend} n w :
  ud_reachable (Some (S n)) w ->
  ud_inv n w /\ UserDetails.render (ud_state w) <> UserDetails.Crash.
Proof.
  intros Hr. assert (ud_inv n w) as Hinv.
  { eapply (rtc_invariant udstep (ud_inv n)); [apply ud_inv_step | apply ud_inv_mounted | exact Hr]. }
  split; [done |].
  destruct Hinv as [(-> & _) | [(u & _ & -> & _) | (e & -> & _)]]; discriminate.
Qed.

(** C26. A [userId] of [0] is falsy, so [componentWillMount] returns
    before fetching: no request is ever sent, nothing is reported, and the
    dialog shows "Loading..." in every run. *)
Theorem userdetails_zero_never_fetched `{Backend} w :
  ud_reachable (Some 0) w ->
  ud_sent w = [] /\ ud_calls w = [] /\ UserDetails.render (ud_state w) = UserDetails.Loading.
Proof.
  intros Hr. inversion Hr as [| ? w' ? Hstep]; subst; [done |].
  by apply ud_mounted_zero_stuck in Hstep.
Qed.

(** C27. When the server knows the user, the fetch's answer is rendered:
    one step after mounting, the dialog shows the user's email, the names
    of its organisations, and each linode with the name of its
    organisation. *)
Theorem userdetails_shows_server_user `{Backend} n u :
  backend_user (S n) = Some u ->
  exists w, udstep (ud_mounted (Some (S n))) w /\
    UserDetails.render (ud_state w) =
      UserDetails.Details (detail_email u) (map ref_name (detail_orgs u))
        (map (fun l => (linode_name l, UserDetails.getOrgNameById (detail_orgs u) (linode_org l)))
             (detail_linodes u)).
Proof.
  intros Hu. eexists. split.
  - apply (uds_settle _ [] (GetUser (S n)) [] (Resolved (RUser u))); [done |].
    left. simpl. by rewrite Hu.
  - done.
Qed.

(** A server that knows the user [4], a member of "acme" with one linode. *)
Definition ud_demo_user : user_detail :=
  mkUserDetail 4 "a@acme" [mkOrgRef 1 "acme"] [mkLinodeRef "web" 1].

Definition ud_demo_backend : Backend :=
  {| backend_exists _ _ := false;
     backend_orgs := [];
     backend_user id := if id =? 4 then Some ud_demo_user else None |}.

Lemma userdetails_fetch_outcome_witness :
  @ud_inv ud_demo_backend 3 (ud_mounted (Some 4)) /\
  UserDetails.render (ud_state (ud_mounted (Some 4))) <> UserDetails.Crash.
Proof. apply (@userdetails_fetch_outcome ud_demo_backend 3). apply rtc_refl. Defined.

Lemma userdetails_zero_never_fetched_witness :
  ud_sent (ud_mounted (Some 0)) = [] /\ ud_calls (ud_mounted (Some 0)) = [] /\
  UserDetails.render (ud_state (ud_mounted (Some 0))) = UserDetails.Loading.
Proof. apply (@userdetails_zero_never_fetched ud_demo_backend). apply rtc_refl. Defined.

Lemma userdetails_shows_server_user_witness :
  exists w, @udstep ud_demo_backend (ud_mounted (Some 4)) w /\
    UserDetails.render (ud_state w) =
      UserDetails.Details "a@acme" ["acme"] [("web", Some "acme")].
Proof. apply (@userdetails_shows_server_user ud_demo_backend 3 ud_demo_user). reflexivity. Defined.
