(* ===== verification/System.v ===== *)
(** * System: App with the dialog bodies it mounts

    The whole client as one world.  App's [render] passes each [MyModal]
    a [body] callback.  react-bootstrap's [Modal] renders it only while
    the dialog is shown, so a body component is mounted when its dialog
    appears and unmounted when the dialog hides.  A new instance is
    constructed each time the dialog reappears.  The bodies are AddOrg,
    AddUser, AddLinode (Forms.v) and UserDetails (UserDetails.v).  The
    error dialog's body is inline markup.

    An instance outlives its unmounting in one way: its pending promises
    still settle, and their continuations still call the [closeReload]
    and [setError] props captured at render time.  React drops the
    [setState] of an unmounted component, while lodash's debounce timer
    lives in the instance and may still fire.  [sys_insts] therefore
    keeps every instance ever constructed, numbered in construction
    order, with the dialog it belongs to and whether it is still mounted.
    Every request in flight records its [owner], App or an instance,
    which is the continuation that runs when it settles.

    [sstep] is the event loop:
    - the user clicks the page or a shown dialog's chrome ([SPage]);
    - the user fires a DOM event in a mounted body ([SForm]), or an
      AddOrg debounce timer elapses, mounted or not;
    - the network settles any request in flight, with the server's
      answer or a failure.
    After every App handler, [reconcile] re-renders.  It unmounts the
    bodies of the dialogs now hidden and mounts a fresh body for every
    dialog now shown.  Mounting runs the body's [componentWillMount];
    UserDetails reads [selectedUserId] then.  Exit animations are
    abstracted: a hidden dialog's body is unmounted at once. *)

From S2P Require Import Prelude Js Remote Forms FormWorld Modal OrgDetails App UserDetails.

#[export] Existing Instance App.modal_id_eq_dec.

(** A dialog body instance's component and state. *)
Inductive child :=
  | COrg (s : AddOrg.state)
  | CUser (s : AddUser.state)
  | CLinode (s : AddLinode.state)
  | CDetails (s : UserDetails.state).

(** What a body does besides [setState]: an axios call, or a call of a
    prop App passed it. *)
Inductive child_effect :=
  | CIssue (r : request)
  | CCloseReload
  | CSetError (e : failure) (msg : string).

Definition of_form_effect (e : form_effect) : child_effect :=
  match e with
  | FIssue r => CIssue r
  | FCloseReload => CCloseReload
  | FSetError err msg => CSetError err msg
  end.

Definition of_ud_effect (e : ud_effect) : child_effect :=
  match e with
  | UIssue r => CIssue r
  | USetError err msg => CSetError err msg
  end.

Definition lift_form {S} (wrap : S -> child) (h : handler S form_effect) (s : S)
    : child * list child_effect :=
  (wrap (fst (h s)), map of_form_effect (snd (h s))).

Definition lift_ud (h : UserDetails.h) (s : UserDetails.state) : child * list child_effect :=
  (CDetails (fst (h s)), map of_ud_effect (snd (h s))).

(** The [body] App passes each dialog, freshly constructed. *)
Definition body (m : App.modal_id) : option child :=
  match m with
  | App.MUserDetails => Some (CDetails UserDetails.init)
  | App.MAddOrg => Some (COrg AddOrg.init)
  | App.MAddUser => Some (CUser AddUser.init)
  | App.MAddLinode => Some (CLinode AddLinode.init)
  | App.MError => None
  end.

(** [componentWillMount] of a body.  Only UserDetails has one, and it
    reads the [userId] prop, [this.state.selectedUserId]. *)
Definition child_mount (a : App.state) (c : child) : child * list child_effect :=
  match c with
  | CDetails s => lift_ud (UserDetails.componentWillMount (App.selectedUserId a)) s
  | _ => (c, [])
  end.

(** A DOM event, or the debounce timer, in a body. *)
Definition child_event (ev : form_event) (c : child) : child * list child_effect :=
  match c with
  | COrg s => lift_form COrg (AddOrg.handle ev) s
  | CUser s => lift_form CUser (AddUser.handle ev) s
  | CLinode s => lift_form CLinode (AddLinode.handle ev) s
  | CDetails _ => (c, [])
  end.

(** The continuation of a body's promise. *)
Definition child_settled (r : request) (o : outcome) (c : child) : child * list child_effect :=
  match c with
  | COrg s => lift_form COrg (AddOrg.on_settled r o) s
  | CUser s => lift_form CUser (AddUser.on_settled r o) s
  | CLinode s => lift_form CLinode (AddLinode.on_settled r o) s
  | CDetails s => lift_ud (UserDetails.user_settled o) s
  end.

(** The body's submit button is enabled. *)
Definition child_submit_enabled (c : child) : bool :=
  match c with
  | COrg s => negb (AddOrg.submit_disabled s)
  | CUser s => negb (AddUser.submit_disabled s)
  | CLinode s => negb (AddLinode.submit_disabled s)
  | CDetails _ => false
  end.

(** What an unmounted instance keeps of a handler's new state: React
    ignores its [setState], but lodash's pending call is not React
    state. *)
Definition unmounted_update (c c' : child) : child :=
  match c, c' with
  | COrg s, COrg s' => COrg (AddOrg.with_pending (AddOrg.debounce_pending s') s)
  | _, _ => c
  end.

(** The [closeReload] prop of each dialog's body ([() => this.closeReload('addingOrg')]
    and so on); UserDetails receives none. *)
Definition closeReload_prop (m : App.modal_id) : option App.h :=
  match m with
  | App.MAddOrg => Some (App.closeReload "addingOrg")
  | App.MAddUser => Some (App.closeReload "addingUser")
  | App.MAddLinode => Some (App.closeReload "addingLinode")
  | _ => None
  end.

(** The App handler a body's prop call runs. *)
Definition parent_call (m : App.modal_id) (e : child_effect) : option App.h :=
  match e with
  | CIssue _ => None
  | CCloseReload => closeReload_prop m
  | CSetError err msg => Some (App.setError err msg)
  end.

Record instance := mkInst {
  inst_modal : App.modal_id;
  inst_body : child;
  inst_mounted : bool
}.

(** Whose continuation runs when a request settles. *)
Inductive owner := OApp | OChild (i : nat).

#[export] Instance owner_eq_dec : EqDecision owner.
Proof. solve_decision. Qed.

Record sys := mkSys {
  sys_app : App.state;
  sys_insts : list instance;              (* every instance, by number *)
  sys_inflight : list (owner * request);
  sys_sent : list (owner * request);
  sys_effects : list app_effect           (* everything App's handlers emitted *)
}.

Definition with_insts (xs : list instance) (w : sys) : sys :=
  mkSys (sys_app w) xs (sys_inflight w) (sys_sent w) (sys_effects w).

Definition with_sys_inflight (rs : list (owner * request)) (w : sys) : sys :=
  mkSys (sys_app w) (sys_insts w) rs (sys_sent w) (sys_effects w).

Definition add_requests (own : owner) (rs : list request) (w : sys) : sys :=
  mkSys (sys_app w) (sys_insts w) (sys_inflight w ++ map (pair own) rs)
        (sys_sent w ++ map (pair own) rs) (sys_effects w).

Definition child_issued (es : list child_effect) : list request :=
  omap (fun e => match e with CIssue r => Some r | _ => None end) es.

(** ** Rendering: mounting and unmounting the bodies *)

Definition mounted_for (m : App.modal_id) (xs : list instance) : bool :=
  existsb (fun x => inst_mounted x && bool_decide (inst_modal x = m)) xs.

Definition unmount_hidden (a : App.state) (x : instance) : instance :=
  if inst_mounted x && negb (App.modal_visible (inst_modal x) a)
  then mkInst (inst_modal x) (inst_body x) false else x.

(** Mount a fresh body for dialog [m] if it is shown without one. *)
Definition mount (w : sys) (m : App.modal_id) : sys :=
  if App.modal_visible m (sys_app w) && negb (mounted_for m (sys_insts w)) then
    match body m with
    | Some c =>
        let res := child_mount (sys_app w) c in
        add_requests (OChild (length (sys_insts w))) (child_issued (snd res))
          (with_insts (sys_insts w ++ [mkInst m (fst res) true]) w)
    | None => w
    end
  else w.

(** The re-render after App's state changed. *)
Definition reconcile (w : sys) : sys :=
  foldl mount (with_insts (map (unmount_hidden (sys_app w)) (sys_insts w)) w) App.all_modals.

(** Run an App handler, then re-render. *)
Definition sys_app_run (h : App.h) (w : sys) : sys :=
  let res := h (sys_app w) in
  reconcile (mkSys (fst res) (sys_insts w)
                   (sys_inflight w ++ map (pair OApp) (a_issued (snd res)))
                   (sys_sent w ++ map (pair OApp) (a_issued (snd res)))
                   (sys_effects w ++ snd res)).

(** Dispatch what instance [i] of dialog [m] emitted, in order. *)
Fixpoint child_effects (i : nat) (m : App.modal_id) (es : list child_effect) (w : sys) : sys :=
  match es with
  | [] => w
  | e :: es' =>
      child_effects i m es'
        (match e with
         | CIssue r => add_requests (OChild i) [r] w
         | _ => match parent_call m e with Some h => sys_app_run h w | None => w end
         end)
  end.

(** Run a handler of instance [i]. *)
Definition child_run (i : nat) (f : child -> child * list child_effect) (w : sys) : option sys :=
  match sys_insts w !! i with
  | Some x =>
      let res := f (inst_body x) in
      let c' := if inst_mounted x then fst res else unmounted_update (inst_body x) (fst res) in
      Some (child_effects i (inst_modal x) (snd res)
              (with_insts (<[i := mkInst (inst_modal x) c' (inst_mounted x)]> (sys_insts w)) w))
  | None => None
  end.

(** ** The event loop *)

(** The App events the user causes directly; [closeReload] and
    [setError] now come from the bodies. *)
Definition page_event (ev : app_event) : bool :=
  match ev with FormCloseReload _ | ChildSetError _ _ => false | _ => true end.

(** The options of the select a body renders, as [onChange] reads them:
    AddUser and AddLinode receive App's [orgs] as their [orgs] prop and
    render the disabled placeholder ["capture"], then one option per
    organisation with its id as value ([rendered_options]).  The
    selection is the user's, with one constraint: AddLinode's select is
    single and its placeholder disabled, so a change of it selects an
    organisation and deselects the placeholder. *)
Definition select_rendered (a : App.state) (c : child) (opts : list dom_option) : bool :=
  bool_decide (map opt_value opts =
                 map opt_value (rendered_options false (map (fun o => (o, false)) (default [] (App.orgs a))))) &&
  match c, opts with
  | CUser _, _ => true
  | CLinode _, o :: _ => negb (opt_selected o)
  | _, _ => false
  end.

(** The events a body instance can receive: DOM events while mounted
    (submit only while its button is enabled, a select change only with
    the options the body renders), its timer at any time. *)
Definition child_event_allowed (a : App.state) (ev : form_event) (x : instance) : bool :=
  match ev with
  | FTimer => true
  | FSubmit => inst_mounted x && child_submit_enabled (inst_body x)
  | FSelect opts => inst_mounted x && select_rendered a (inst_body x) opts
  | _ => inst_mounted x
  end.

(** Run the continuation of a settled request. *)
Definition deliver (own : owner) (r : request) (o : outcome) (w : sys) : option sys :=
  match own with
  | OApp => Some (sys_app_run (App.orgs_settled o) w)
  | OChild i => child_run i (child_settled r o) w
  end.

(** After App's [componentWillMount]. *)
Definition sys_initial : sys := sys_app_run App.componentWillMount (mkSys App.init [] [] [] []).

Inductive sys_event :=
  | SPage (ev : app_event)
  | SForm (i : nat) (ev : form_event).

Section SysStep.
Context `{Backend}.

Inductive sstep : sys -> sys -> Prop :=
  | ss_page ev h w :
      page_event ev = true -> event_handler ev (sys_app w) = Some h ->
      sstep w (sys_app_run h w)
  | ss_child i ev x w w' :
      sys_insts w !! i = Some x -> child_event_allowed (sys_app w) ev x = true ->
      child_run i (child_event ev) w = Some w' -> sstep w w'
  | ss_settle w l1 own r l2 o w' :
      sys_inflight w = l1 ++ (own, r) :: l2 -> settles r o ->
      deliver own r o (with_sys_inflight (l1 ++ l2) w) = Some w' -> sstep w w'.

Inductive saction := SEv (ev : sys_event) | SSet (j : nat) (fail : option failure).

(** The executable step. *)
Definition sexec (w : sys) (a : saction) : option sys :=
  match a with
  | SEv (SPage ev) =>
      if page_event ev then h ← event_handler ev (sys_app w); Some (sys_app_run h w) else None
  | SEv (SForm i ev) =>
      x ← sys_insts w !! i;
      if child_event_allowed (sys_app w) ev x then child_run i (child_event ev) w else None
  | SSet j f =>
      p ← sys_inflight w !! j;
      let o := match f with None => backend_reply p.2 | Some e => Rejected e end in
      deliver p.1 p.2 o
        (with_sys_inflight (take j (sys_inflight w) ++ drop (Nat.succ j) (sys_inflight w)) w)
  end.

Fixpoint srun (w : sys) (acts : list saction) : option sys :=
  match acts with
  | [] => Some w
  | a :: acts' => w' ← sexec w a; srun w' acts'
  end.

Lemma sexec_step w a w' : sexec w a = Some w' -> sstep w w'.
Proof.
  destruct a as [[ev | i ev] | j f]; simpl.
  - destruct (page_event ev) eqn:Hp; [| done].
    destruct (event_handler ev (sys_app w)) as [h |] eqn:E; intros; simplify_eq/=.
    by apply (ss_page ev).
  - destruct (sys_insts w !! i) as [x |] eqn:Hx; simpl; [| done].
    destruct (child_event_allowed (sys_app w) ev x) eqn:Ha; [| done]. by eapply ss_child.
  - destruct (sys_inflight w !! j) as [[own r] |] eqn:Hj; simpl; [| done].
    intros Hd. eapply ss_settle; [symmetry; by apply take_drop_middle | | exact Hd].
    destruct f; [right; eauto | by left].
Qed.

(** Every run of [sexec] is a path of the system. *)
Lemma srun_sound w acts w' : srun w acts = Some w' -> rtc sstep w w'.
Proof.
  revert w. induction acts as [| a acts IH]; intros w; simpl; [intros [= ->]; apply rtc_refl |].
  destruct (sexec w a) as [w1 |] eqn:E; simpl; [| done].
  intros Hrun. eapply rtc_l; [by eapply sexec_step | by apply IH].
Qed.
End SysStep.

(** ** App's view of the system *)

(** The requests whose continuation is App's. *)
Definition app_requests (rs : list (owner * request)) : list request :=
  omap (fun p => match p.1 with OApp => Some p.2 | OChild _ => None end) rs.

(** The system seen from App: its state, its requests, its effects. *)
Definition app_view (w : sys) : aworld :=
  mkAWorld (sys_app w) (app_requests (sys_inflight w)) (sys_effects w).

Lemma app_requests_app l1 l2 : app_requests (l1 ++ l2) = app_requests l1 ++ app_requests l2.
Proof. apply omap_app. Qed.

Lemma app_requests_app_owned rs : app_requests (map (pair OApp) rs) = rs.
Proof. induction rs; simpl; f_equal; done. Qed.

Lemma app_requests_child_owned i rs : app_requests (map (pair (OChild i)) rs) = [].
Proof. induction rs; simpl; done. Qed.

Create Rewrite HintDb sysview.
#[export] Hint Rewrite app_requests_app app_requests_app_owned app_requests_child_owned
  app_nil_r : sysview.

Lemma app_view_add_child i rs w : app_view (add_requests (OChild i) rs w) = app_view w.
Proof. unfold app_view. simpl. by autorewrite with sysview. Qed.

Lemma app_view_with_insts xs w : app_view (with_insts xs w) = app_view w.
Proof. done. Qed.

Lemma app_view_mount w m : app_view (mount w m) = app_view w.
Proof.
  unfold mount. destruct (_ && _); [| done].
  destruct (body m); [| done]. by rewrite app_view_add_child.
Qed.

Lemma foldl_mount_app_view ms w : app_view (foldl mount w ms) = app_view w.
Proof.
  revert w. induction ms as [| m ms IH]; intros w; simpl; [done |].
  by rewrite IH, app_view_mount.
Qed.

Lemma app_view_reconcile w : app_view (reconcile w) = app_view w.
Proof. unfold reconcile. by rewrite foldl_mount_app_view. Qed.

(** Running an App handler in the system is running it in App's session. *)
Lemma app_view_app_run h w : app_view (sys_app_run h w) = aapply h (app_view w).
Proof.
  unfold sys_app_run. rewrite app_view_reconcile. unfold app_view, aapply. simpl.
  by autorewrite with sysview.
Qed.

(** A body's prop call is a callback App's session allows at any time. *)
Lemma parent_call_event m e s h :
  parent_call m e = Some h -> exists ev, event_handler ev s = Some h.
Proof.
  destruct e as [r | | err msg]; simpl; [done | | intros [= <-]; by exists (ChildSetError err msg)].
  destruct m; simpl; intros; simplify_eq;
    [exists (FormCloseReload KOrg) | exists (FormCloseReload KUser) | exists (FormCloseReload KLinode)];
    done.
Qed.

Section Refinement.
Context `{Backend}.

Lemma child_effects_refines i m es w :
  rtc astep (app_view w) (app_view (child_effects i m es w)).
Proof.
  revert w. induction es as [| e es IH]; intros w; simpl; [apply rtc_refl |].
  etrans; [| apply IH].
  destruct e as [r | |]; [by rewrite app_view_add_child; apply rtc_refl | |];
    (destruct (parent_call m _) as [h |] eqn:Hp; [| apply rtc_refl]);
    destruct (parent_call_event _ _ (sys_app w) _ Hp) as [ev Hev];
    rewrite app_view_app_run; apply rtc_once; by apply (as_event ev).
Qed.

Lemma child_run_refines i f w w' :
  child_run i f w = Some w' -> rtc astep (app_view w) (app_view w').
Proof.
  unfold child_run. destruct (sys_insts w !! i); intros; simplify_eq.
  etrans; [| apply child_effects_refines]. apply rtc_refl.
Qed.

Lemma app_requests_split l1 own r l2 :
  app_requests (l1 ++ (own, r) :: l2) =
    app_requests l1 ++ (match own with OApp => [r] | OChild _ => [] end) ++ app_requests l2.
Proof. rewrite app_requests_app. by destruct own. Qed.

(** Every step of the system is zero or more steps of App's session. *)
Lemma sstep_refines w w' : sstep w w' -> rtc astep (app_view w) (app_view w').
Proof.
  intros [ev h w0 _ Hev | i ev x w0 w1 _ _ Hrun | w0 l1 own r l2 o w1 Hin Hs Hd].
  - rewrite app_view_app_run. apply rtc_once. by apply (as_event ev).
  - by eapply child_run_refines.
  - destruct own as [| i]; simpl in Hd.
    + injection Hd as <-. rewrite app_view_app_run. apply rtc_once.
      replace (app_view (with_sys_inflight (l1 ++ l2) w0)) with
        (mkAWorld (a_state (app_view w0)) (app_requests l1 ++ app_requests l2) (a_effects (app_view w0)))
        by (unfold app_view; simpl; by rewrite app_requests_app).
      eapply as_settle; [| exact Hs]. unfold app_view. simpl. by rewrite Hin, app_requests_split.
    + apply child_run_refines in Hd. etrans; [| exact Hd].
      enough (app_view w0 = app_view (with_sys_inflight (l1 ++ l2) w0)) as -> by apply rtc_refl.
      unfold app_view. simpl. by rewrite Hin, app_requests_split, app_requests_app.
Qed.

Lemma sys_refines w w' : rtc sstep w w' -> rtc astep (app_view w) (app_view w').
Proof.
  induction 1 as [| w1 w2 w3 Hs _ IH]; [apply rtc_refl |].
  etrans; [by apply sstep_refines | exact IH].
Qed.
End Refinement.

Lemma app_view_initial : app_view sys_initial = app_initial.
Proof. unfold sys_initial. by rewrite app_view_app_run. Qed.

(** ** Rendering invariants *)

(** Every shown dialog with a body component has a mounted instance. *)
Definition reconciled (w : sys) : Prop :=
  forall m, App.modal_visible m (sys_app w) = true -> is_Some (body m) ->
            mounted_for m (sys_insts w) = true.

Lemma mounted_for_app m xs ys : mounted_for m xs = true -> mounted_for m (xs ++ ys) = true.
Proof. unfold mounted_for. rewrite existsb_app. by intros ->. Qed.

Lemma mounted_for_unmount a m xs :
  App.modal_visible m a = true -> mounted_for m xs = true ->
  mounted_for m (map (unmount_hidden a) xs) = true.
Proof.
  intros Hv. unfold mounted_for. rewrite !existsb_exists.
  intros (x & Hx & Hm). exists (unmount_hidden a x). split; [by apply in_map |].
  apply andb_true_iff in Hm as [Hmt Heq]. apply bool_decide_eq_true in Heq.
  unfold unmount_hidden. rewrite Hmt, Heq, Hv. simpl. by rewrite Hmt, bool_decide_true.
Qed.

Lemma mount_app w m : sys_app (mount w m) = sys_app w.
Proof. unfold mount. destruct (_ && _); [| done]. by destruct (body m). Qed.

Lemma mount_mounted_for w m m' :
  mounted_for m' (sys_insts w) = true -> mounted_for m' (sys_insts (mount w m)) = true.
Proof.
  unfold mount. destruct (_ && _); [| done]. destruct (body m); [| done].
  simpl. apply mounted_for_app.
Qed.

Lemma mount_establishes w m :
  App.modal_visible m (sys_app w) = true -> is_Some (body m) ->
  mounted_for m (sys_insts (mount w m)) = true.
Proof.
  intros Hv [c Hc]. unfold mount. rewrite Hv, Hc. simpl.
  destruct (mounted_for m (sys_insts w)) eqn:Hm; simpl; [done |].
  unfold mounted_for. rewrite existsb_app. simpl. rewrite bool_decide_true by done.
  by rewrite orb_true_r.
Qed.

Lemma foldl_mount_app ms w : sys_app (foldl mount w ms) = sys_app w.
Proof. revert w. induction ms; intros w; simpl; [done |]. by rewrite IHms, mount_app. Qed.

Lemma foldl_mount_mounted_for ms w m :
  mounted_for m (sys_insts w) = true -> mounted_for m (sys_insts (foldl mount w ms)) = true.
Proof. revert w. induction ms; intros w Hm; simpl; [done |]. by apply IHms, mount_mounted_for. Qed.

Lemma foldl_mount_establishes ms w m :
  m ∈ ms -> App.modal_visible m (sys_app w) = true -> is_Some (body m) ->
  mounted_for m (sys_insts (foldl mount w ms)) = true.
Proof.
  revert w. induction ms as [| m' ms IH]; intros w Hin Hv Hb; [by apply elem_of_nil in Hin |].
  simpl. apply elem_of_cons in Hin as [-> | Hin].
  - apply foldl_mount_mounted_for. by apply mount_establishes.
  - apply IH; [done | by rewrite mount_app | done].
Qed.

Lemma elem_of_all_modals m : m ∈ App.all_modals.
Proof. destruct m; unfold App.all_modals; set_solver. Qed.

(** Re-rendering mounts a body for every shown dialog. *)
Lemma reconcile_reconciled w : reconciled (reconcile w).
Proof.
  intros m Hv Hb. unfold reconcile in *. rewrite foldl_mount_app in Hv.
  apply foldl_mount_establishes; [apply elem_of_all_modals | done | done].
Qed.

Lemma app_run_reconciled h w : reconciled (sys_app_run h w).
Proof. apply reconcile_reconciled. Qed.

Lemma reconciled_add_requests own rs w : reconciled w -> reconciled (add_requests own rs w).
Proof. done. Qed.

Lemma child_effects_reconciled i m es w : reconciled w -> reconciled (child_effects i m es w).
Proof.
  revert w. induction es as [| e es IH]; intros w Hw; simpl; [done |]. apply IH.
  destruct e; [done | |]; destruct (parent_call m _); try apply app_run_reconciled; done.
Qed.

(** Updating an instance's body keeps the mounted instances. *)
Lemma mounted_for_insert m xs i x c :
  xs !! i = Some x ->
  mounted_for m (<[i := mkInst (inst_modal x) c (inst_mounted x)]> xs) = mounted_for m xs.
Proof.
  revert i. induction xs as [| y xs IH]; intros [| i] Hi; simpl in *; simplify_eq; [done |].
  unfold mounted_for in *. simpl. f_equal. by apply IH.
Qed.

Lemma child_run_reconciled i f w w' : child_run i f w = Some w' -> reconciled w -> reconciled w'.
Proof.
  unfold child_run. destruct (sys_insts w !! i) as [x |] eqn:Hx; intros; simplify_eq.
  apply child_effects_reconciled. intros m Hv Hb. simpl. rewrite mounted_for_insert by done. auto.
Qed.

Lemma deliver_reconciled own r o w w' : deliver own r o w = Some w' -> reconciled w -> reconciled w'.
Proof.
  destruct own; simpl; [intros [= <-] _; apply app_run_reconciled | apply child_run_reconciled].
Qed.

Lemma sstep_reconciled `{Backend} w w' : sstep w w' -> reconciled w -> reconciled w'.
Proof.
  intros [ev h w0 _ _ | i ev x w0 w1 _ _ Hrun | w0 l1 own r l2 o w1 _ _ Hd] Hw.
  - apply app_run_reconciled.
  - by eapply child_run_reconciled.
  - by eapply deliver_reconciled.
Qed.

Lemma reachable_reconciled `{Backend} w : rtc sstep sys_initial w -> reconciled w.
Proof.
  apply (rtc_invariant sstep reconciled); [apply sstep_reconciled | apply app_run_reconciled].
Qed.

(** ** The load of the network *)

(** A creation call weighs two: its success re-fetches the snapshot. *)
Definition weight (r : request) : nat := if is_create r then 2 else 1.

Definition load (rs : list (owner * request)) : nat := sum_list_with (fun p => weight p.2) rs.

Lemma load_app l1 l2 : load (l1 ++ l2) = load l1 + load l2.
Proof. apply sum_list_with_app. Qed.

Lemma weight_pos r : 1 <= weight r.
Proof. unfold weight. destruct (is_create r); lia. Qed.

(** No dialog with a body appears between [a] and [a']. *)
Definition dialogs_shrink (a a' : App.state) : Prop :=
  forall m, is_Some (body m) -> App.modal_visible m a' = true -> App.modal_visible m a = true.

Lemma setError_shrinks e msg s : dialogs_shrink s (fst (App.setError e msg s)).
Proof. intros m [c Hb]. unfold App.setError. rewrite hseq_run. destruct m; by simplify_eq/=. Qed.

Lemma closeReload_shrinks act s : dialogs_shrink s (fst (App.closeReload act s)).
Proof.
  intros m [c Hb]. unfold App.closeReload. rewrite hseq_run. simpl.
  destruct s as [os sel ao au al b er m0].
  repeat (destruct (String.eqb _ _); simpl); destruct m; by simplify_eq/=.
Qed.

Lemma orgs_settled_shrinks o s : dialogs_shrink s (fst (App.orgs_settled o s)).
Proof. destruct o; [by intros [] | apply setError_shrinks]. Qed.

Lemma closeReload_issues act s : a_issued (snd (App.closeReload act s)) = [GetOrgs].
Proof. unfold App.closeReload. rewrite hseq_run. by repeat (destruct (String.eqb _ _); simpl). Qed.

Lemma setError_issues e msg s : a_issued (snd (App.setError e msg s)) = [].
Proof. unfold App.setError. by rewrite hseq_run. Qed.

Lemma orgs_settled_issues o s : a_issued (snd (App.orgs_settled o s)) = [].
Proof. destruct o; [done | apply setError_issues]. Qed.

Lemma foldl_mount_id ms w :
  (forall m, App.modal_visible m (sys_app w) = true -> is_Some (body m) ->
             mounted_for m (sys_insts w) = true) ->
  foldl mount w ms = w.
Proof.
  intros Hw. induction ms as [| m ms IH]; simpl; [done |].
  replace (mount w m) with w; [done |]. unfold mount.
  destruct (App.modal_visible m (sys_app w)) eqn:Hv; simpl; [| done].
  destruct (body m) as [c |] eqn:Hb; [| by destruct (negb _)].
  by rewrite Hw by (done || eauto).
Qed.

(** An App handler that opens no dialog mounts nothing: the requests in
    flight are the old ones and App's. *)
Lemma app_run_inflight h w :
  reconciled w -> dialogs_shrink (sys_app w) (fst (h (sys_app w))) ->
  sys_inflight (sys_app_run h w) =
    sys_inflight w ++ map (pair OApp) (a_issued (snd (h (sys_app w)))).
Proof.
  intros Hw Hs. unfold sys_app_run, reconcile. rewrite foldl_mount_id; [done |].
  simpl. intros m Hv Hb. apply mounted_for_unmount; [done |]. apply Hw; [by apply Hs | done].
Qed.

(** A body's promise continuation issues nothing and calls at most one
    prop; only the continuation of a creation call calls [closeReload]. *)
Lemma child_settled_effects r o c :
  snd (child_settled r o c) = [] \/
  (exists e msg, snd (child_settled r o c) = [CSetError e msg]) \/
  (snd (child_settled r o c) = [CCloseReload] /\ is_create r = true).
Proof. destruct c, r, o; simpl; eauto. Qed.

Lemma child_run_inflight i f w w' x :
  sys_insts w !! i = Some x -> child_run i f w = Some w' ->
  w' = child_effects i (inst_modal x) (snd (f (inst_body x)))
         (with_insts (<[i := mkInst (inst_modal x)
             (if inst_mounted x then fst (f (inst_body x))
              else unmounted_update (inst_body x) (fst (f (inst_body x))))
             (inst_mounted x)]> (sys_insts w)) w).
Proof. unfold child_run. intros ->. by intros [= <-]. Qed.

(** Settling a request lowers the load of the network. *)
Lemma deliver_load own r o w w' :
  reconciled w -> deliver own r o w = Some w' ->
  load (sys_inflight w') + 1 <= load (sys_inflight w) + weight r.
Proof.
  intros Hw Hd. destruct own as [| i]; simpl in Hd.
  - injection Hd as <-. rewrite app_run_inflight by (done || apply orgs_settled_shrinks).
    rewrite orgs_settled_issues, app_nil_r. pose proof (weight_pos r). lia.
  - unfold child_run in Hd. destruct (sys_insts w !! i) as [x |] eqn:Hx; [| done].
    injection Hd as <-.
    set (w1 := with_insts _ w).
    assert (reconciled w1) as Hw1.
    { intros m Hv Hb. simpl. rewrite mounted_for_insert by done. by apply Hw. }
    destruct (child_settled_effects r o (inst_body x))
      as [-> | [(e & msg & ->) | (-> & Hc)]]; simpl.
    + pose proof (weight_pos r). simpl. lia.
    + rewrite app_run_inflight by (done || apply setError_shrinks).
      rewrite setError_issues, app_nil_r. pose proof (weight_pos r). simpl. lia.
    + destruct (closeReload_prop (inst_modal x)) as [h |] eqn:Hp.
      * assert (exists act, h = App.closeReload act) as [act ->]
          by (destruct (inst_modal x); simplify_eq/=; eauto).
        rewrite app_run_inflight by (done || apply closeReload_shrinks).
        rewrite closeReload_issues, load_app. unfold weight. rewrite Hc. simpl. lia.
      * pose proof (weight_pos r). simpl. lia.
Qed.

Lemma load_split l1 p l2 : load (l1 ++ p :: l2) = load (l1 ++ l2) + weight p.2.
Proof. rewrite !load_app. simpl. lia. Qed.

(** A settlement: the network settles one request in flight. *)
Definition settle_step `{Backend} (w w' : sys) : Prop :=
  exists l1 own r l2 o, sys_inflight w = l1 ++ (own, r) :: l2 /\ settles r o /\
    deliver own r o (with_sys_inflight (l1 ++ l2) w) = Some w'.

Lemma settle_step_sstep `{Backend} w w' : settle_step w w' -> sstep w w'.
Proof. intros (l1 & own & r & l2 & o & Hin & Hs & Hd). by eapply ss_settle. Qed.

Lemma settle_step_load `{Backend} w w' :
  reconciled w -> settle_step w w' ->
  load (sys_inflight w') < load (sys_inflight w) /\ reconciled w'.
Proof.
  intros Hw Hst. split; [| apply (sstep_reconciled w w'); [by apply settle_step_sstep | done]].
  destruct Hst as (l1 & own & r & l2 & o & Hin & _ & Hd).
  apply deliver_load in Hd; [| done]. simpl in Hd. rewrite Hin, load_split. simpl. lia.
Qed.

Section Quiescence.
Context `{Backend}.

(** A sequence of settlements is no longer than the load it starts from. *)
Lemma settle_nsteps_load n w w' :
  reconciled w -> nsteps settle_step n w w' -> n <= load (sys_inflight w).
Proof.
  intros Hw Hn. revert Hw. induction Hn as [w | n w1 w2 w3 Hs _ IH]; intros Hw; [lia |].
  destruct (settle_step_load w1 w2 Hw Hs) as [Hlt Hw2]. specialize (IH Hw2). lia.
Qed.
End Quiescence.

(** Every mounted instance belongs to a shown dialog. *)
Definition mounted_shown (w : sys) : Prop :=
  forall x, x ∈ sys_insts w -> inst_mounted x = true ->
            App.modal_visible (inst_modal x) (sys_app w) = true.

Lemma mount_mounted_shown w m : mounted_shown w -> mounted_shown (mount w m).
Proof.
  unfold mount. destruct (App.modal_visible m (sys_app w)) eqn:Hv; simpl; [| done].
  destruct (negb _); [| done]. destruct (body m); [| done].
  intros Hw x Hx Hm. simpl in *. apply elem_of_app in Hx as [Hx | Hx]; [by apply Hw |].
  apply list_elem_of_singleton in Hx as ->. done.
Qed.

Lemma foldl_mount_mounted_shown ms w : mounted_shown w -> mounted_shown (foldl mount w ms).
Proof. revert w. induction ms; intros w Hw; simpl; [done |]. by apply IHms, mount_mounted_shown. Qed.

Lemma reconcile_mounted_shown w : mounted_shown (reconcile w).
Proof.
  unfold reconcile. apply foldl_mount_mounted_shown.
  intros x Hx Hm. simpl in *. apply (list_elem_of_fmap (unmount_hidden (sys_app w))) in Hx as (y & -> & _).
  revert Hm. unfold unmount_hidden.
  destruct (inst_mounted y) eqn:Hy, (App.modal_visible (inst_modal y) (sys_app w)) eqn:Hv;
    simpl; rewrite ?Hy; done.
Qed.

Lemma child_effects_mounted_shown i m es w :
  mounted_shown w -> mounted_shown (child_effects i m es w).
Proof.
  revert w. induction es as [| e es IH]; intros w Hw; simpl; [done |]. apply IH.
  destruct e; [done | |]; destruct (parent_call m _); try apply reconcile_mounted_shown; done.
Qed.

Lemma mounted_shown_insert w i x c :
  sys_insts w !! i = Some x -> mounted_shown w ->
  mounted_shown (with_insts (<[i := mkInst (inst_modal x) c (inst_mounted x)]> (sys_insts w)) w).
Proof.
  intros Hx Hw y Hy Hm. simpl in *.
  apply list_elem_of_lookup in Hy as [j Hj]. destruct (decide (i = j)) as [<- | Hne].
  - rewrite list_lookup_insert_eq in Hj by (by eapply lookup_lt_Some). simplify_eq/=.
    apply (Hw x); [by eapply list_elem_of_lookup_2 | done].
  - rewrite list_lookup_insert_ne in Hj by done. apply Hw; [by eapply list_elem_of_lookup_2 | done].
Qed.

Lemma sstep_mounted_shown `{Backend} w w' : sstep w w' -> mounted_shown w -> mounted_shown w'.
Proof.
  intros [ev h w0 _ _ | i ev x w0 w1 _ _ Hrun | w0 l1 own r l2 o w1 _ _ Hd] Hw.
  - apply reconcile_mounted_shown.
  - unfold child_run in Hrun. destruct (sys_insts w0 !! i) eqn:Hx; simplify_eq.
    by apply child_effects_mounted_shown, mounted_shown_insert.
  - destruct own as [| i]; simpl in Hd; [injection Hd as <-; apply reconcile_mounted_shown |].
    unfold child_run in Hd. destruct (sys_insts _ !! i) eqn:Hx; simplify_eq.
    by apply child_effects_mounted_shown, mounted_shown_insert.
Qed.

Lemma reachable_mounted_shown `{Backend} w : rtc sstep sys_initial w -> mounted_shown w.
Proof.
  apply (rtc_invariant sstep mounted_shown); [apply sstep_mounted_shown | apply reconcile_mounted_shown].
Qed.

Lemma visible_modals_elem m s : App.modal_visible m s = true -> m ∈ App.visible_modals s.
Proof. intros Hv. unfold App.visible_modals. apply list_elem_of_filter. split; [done | apply elem_of_all_modals]. Qed.

(** While the page takes clicks, no body is mounted. *)
Lemma page_enabled_unmounted w x :
  mounted_shown w -> page_enabled (sys_app w) = true -> x ∈ sys_insts w -> inst_mounted x = false.
Proof.
  intros Hw Hp Hx. destruct (inst_mounted x) eqn:Hm; [| done].
  unfold page_enabled in Hp. apply bool_decide_eq_true in Hp.
  pose proof (visible_modals_elem _ _ (Hw x Hx Hm)) as Hin. rewrite Hp in Hin. by apply elem_of_nil in Hin.
Qed.

Lemma unmount_hidden_unmounted a xs :
  (forall x, x ∈ xs -> inst_mounted x = false) -> map (unmount_hidden a) xs = xs.
Proof.
  induction xs as [| x xs IH]; intros Hxs; simpl; [done |].
  unfold unmount_hidden at 1. rewrite (Hxs x) by set_solver. simpl. f_equal.
  apply IH. intros y Hy. apply Hxs. set_solver.
Qed.

Lemma mounted_for_unmounted m xs :
  (forall x, x ∈ xs -> inst_mounted x = false) -> mounted_for m xs = false.
Proof.
  intros Hxs. unfold mounted_for. apply not_true_iff_false. rewrite existsb_exists.
  intros (x & Hx & Hm). rewrite (Hxs x) in Hm by (by apply list_elem_of_In). done.
Qed.

Lemma reachable_refines `{Backend} w : rtc sstep sys_initial w -> rtc astep app_initial (app_view w).
Proof. intros Hr. rewrite <- app_view_initial. by apply sys_refines. Qed.

(** Mounting when no body is mounted. *)
Lemma mount_fresh w m :
  (forall x, x ∈ sys_insts w -> inst_mounted x = false) ->
  mount w m =
    if App.modal_visible m (sys_app w) then
      match body m with
      | Some c =>
          add_requests (OChild (length (sys_insts w))) (child_issued (snd (child_mount (sys_app w) c)))
            (with_insts (sys_insts w ++ [mkInst m (fst (child_mount (sys_app w) c)) true]) w)
      | None => w
      end
    else w.
Proof. intros Hun. unfold mount. rewrite mounted_for_unmounted by done. by rewrite andb_true_r. Qed.

Lemma mount_hidden w m : App.modal_visible m (sys_app w) = false -> mount w m = w.
Proof. intros Hv. unfold mount. by rewrite Hv. Qed.

Lemma sexec_settle `{Backend} w j f w' : sexec w (SSet j f) = Some w' -> settle_step w w'.
Proof.
  simpl. destruct (sys_inflight w !! j) as [[own r] |] eqn:Hj; simpl; [| done]. intros Hd.
  exists (take j (sys_inflight w)), own, r, (drop (Nat.succ j) (sys_inflight w)).
  eexists. split_and!; [symmetry; by apply take_drop_middle | | exact Hd].
  destruct f; [right; eauto | by left].
Qed.

(** ** Creation calls *)

(** The number of creation calls sent so far. *)
Definition creates_sent (w : sys) : nat := creates (map snd (sys_sent w)).

Lemma creates_sent_add own rs w :
  creates_sent (add_requests own rs w) = creates_sent w + creates rs.
Proof. unfold creates_sent. simpl. rewrite map_app, creates_app, map_map. by rewrite map_id. Qed.

Lemma child_mount_no_create a c : creates (child_issued (snd (child_mount a c))) = 0.
Proof.
  destruct c as [| | | s]; [done.. |]. simpl. unfold UserDetails.componentWillMount.
  destruct (App.selectedUserId a) as [[|] |]; reflexivity.
Qed.

Lemma creates_sent_mount w m : creates_sent (mount w m) = creates_sent w.
Proof.
  unfold mount. destruct (_ && _); [| done]. destruct (body m) as [c |]; [| done].
  rewrite creates_sent_add, child_mount_no_create. unfold creates_sent. simpl. lia.
Qed.

Lemma creates_sent_foldl_mount ms w : creates_sent (foldl mount w ms) = creates_sent w.
Proof. revert w. induction ms as [| m ms IH]; intros w; simpl; [done |]. by rewrite IH, creates_sent_mount. Qed.

Lemma creates_sent_reconcile w : creates_sent (reconcile w) = creates_sent w.
Proof. unfold reconcile. by rewrite creates_sent_foldl_mount. Qed.

Lemma creates_sent_app_run h w :
  creates (a_issued (snd (h (sys_app w)))) = 0 -> creates_sent (sys_app_run h w) = creates_sent w.
Proof.
  intros H0. unfold sys_app_run. rewrite creates_sent_reconcile.
  unfold creates_sent. simpl. rewrite map_app, creates_app, map_map, map_id, H0. lia.
Qed.

(** App's handlers issue no creation call. *)
Lemma event_no_create ev s h : event_handler ev s = Some h -> creates (a_issued (snd (h s))) = 0.
Proof. intros Hev. event_cases ev s Hev; reflexivity. Qed.

Lemma closeReload_no_create act s : creates (a_issued (snd (App.closeReload act s))) = 0.
Proof. by rewrite closeReload_issues. Qed.

Lemma parent_call_no_create m e h s : parent_call m e = Some h -> creates (a_issued (snd (h s))) = 0.
Proof.
  destruct e; simpl; [done | | intros [= <-]; by rewrite setError_issues].
  destruct m; simpl; intros; simplify_eq; apply closeReload_no_create.
Qed.

Lemma creates_sent_child_effects i m es w :
  creates_sent (child_effects i m es w) = creates_sent w + creates (child_issued es).
Proof.
  revert w. induction es as [| e es IH]; intros w; simpl; [unfold creates; simpl; lia |].
  rewrite IH. destruct e as [r | |]; simpl.
  - rewrite creates_sent_add. change (r :: child_issued es) with ([r] ++ child_issued es).
    rewrite creates_app. lia.
  - destruct (closeReload_prop m) as [h |] eqn:Hp; [| done].
    rewrite creates_sent_app_run; [done |]. apply (parent_call_no_create m CCloseReload). done.
  - rewrite creates_sent_app_run; [done |]. by rewrite setError_issues.
Qed.

Lemma creates_sent_child_run i f w w' x :
  sys_insts w !! i = Some x -> child_run i f w = Some w' ->
  creates_sent w' = creates_sent w + creates (child_issued (snd (f (inst_body x)))).
Proof. intros Hx Hrun. rewrite (child_run_inflight i f w w' x Hx Hrun), creates_sent_child_effects. done. Qed.

Lemma child_settled_no_create r o c : child_issued (snd (child_settled r o c)) = [].
Proof.
  destruct (child_settled_effects r o c) as [-> | [(e & msg & ->) | (-> & _)]]; done.
Qed.

(** Of the events a body receives, only a submit issues a creation call. *)
Lemma child_event_no_create ev c : ev <> FSubmit -> creates (child_issued (snd (child_event ev c))) = 0.
Proof.
  intros Hev. destruct c as [s | s | s | s]; [| | | done]; destruct ev; try done; simpl;
    unfold AddOrg.update, AddOrg.checkValidity, AddOrg.debounce_fire, AddOrg._checkValidity,
      AddUser.updateEmail, AddUser.checkValidity, AddUser.updateOrg,
      AddLinode.updateName, AddLinode.checkValidity, AddLinode.updateOrg;
    rewrite ?hseq_run; simpl; repeat (case_match; simpl; rewrite ?hseq_run; simpl); reflexivity.
Qed.
