(* ===== verification/SysTyping.v ===== *)
(** * SysTyping: the typing of the whole client's state

    A state of [System.v] is well typed ([sys_typed]) when:
    - every instance's body is the component of its dialog (an AddOrg in
      the Add Organization dialog, and so on);
    - every request in flight is one its owner issues.  App issues only
      [GET /api/orgs].  A form issues its kind's existence checks and its
      kind's creation call, and UserDetails issues the fetch of a user.

    Typing is what makes settling meaningful: the continuation that runs
    when a request settles is the one its issuer attached.  [sstep]
    preserves it ([sstep_preserves], a generic principle for the
    invariants of the system).  It gives progress: every request in
    flight can settle, with the server's answer or any failure. *)

From S2P Require Import Prelude Js Remote Forms FormWorld Modal OrgDetails App UserDetails System.

(** The dialog whose body a component is. *)
Definition child_component (c : child) : App.modal_id :=
  match c with
  | COrg _ => App.MAddOrg
  | CUser _ => App.MAddUser
  | CLinode _ => App.MAddLinode
  | CDetails _ => App.MUserDetails
  end.

(** The requests the body of a dialog issues. *)
Definition issues_of (m : App.modal_id) (r : request) : bool :=
  match m, r with
  | App.MAddOrg, (GetExists KOrg _ | PostOrg _) => true
  | App.MAddUser, (GetExists KUser _ | PostUser _ _) => true
  | App.MAddLinode, (GetExists KLinode _ | PostLinode _ _) => true
  | App.MUserDetails, GetUser _ => true
  | _, _ => false
  end.

(** A request in flight is one its owner issues. *)
Definition owned_ok (xs : list instance) (p : owner * request) : Prop :=
  match p.1 with
  | OApp => p.2 = GetOrgs
  | OChild i => exists x, xs !! i = Some x /\ issues_of (inst_modal x) p.2 = true
  end.

Definition sys_typed (w : sys) : Prop :=
  Forall (fun x => child_component (inst_body x) = inst_modal x) (sys_insts w) /\
  Forall (owned_ok (sys_insts w)) (sys_inflight w).

(** The effects of a body are typed by its component. *)
Definition effects_typed (m : App.modal_id) (es : list child_effect) : Prop :=
  Forall (fun r => issues_of m r = true) (child_issued es).

(** An App handler issues nothing but [GET /api/orgs]. *)
Definition app_typed (h : App.h) : Prop :=
  forall s, Forall (fun r => r = GetOrgs) (a_issued (snd (h s))).

(** ** What the handlers issue *)

Lemma child_event_component ev c : child_component (fst (child_event ev c)) = child_component c.
Proof. by destruct c. Qed.

Lemma child_settled_component r o c : child_component (fst (child_settled r o c)) = child_component c.
Proof. by destruct c. Qed.

Lemma child_mount_component a c : child_component (fst (child_mount a c)) = child_component c.
Proof. by destruct c. Qed.

Lemma unmounted_update_component c c' : child_component (unmounted_update c c') = child_component c.
Proof. by destruct c, c'. Qed.

Lemma body_component m c : body m = Some c -> child_component c = m.
Proof. destruct m; simpl; intros; by simplify_eq. Qed.

Lemma child_event_typed ev c : effects_typed (child_component c) (snd (child_event ev c)).
Proof.
  unfold effects_typed. destruct c as [s | s | s | s]; [| | | constructor]; destruct ev; simpl;
    unfold AddOrg.update, AddOrg.checkValidity, AddOrg.debounce_fire, AddOrg._checkValidity,
      AddOrg.submit, AddUser.updateEmail, AddUser.checkValidity, AddUser.updateOrg, AddUser.submit,
      AddLinode.updateName, AddLinode.checkValidity, AddLinode.updateOrg, AddLinode.submit;
    rewrite ?hseq_run; simpl; repeat (case_match; simpl; rewrite ?hseq_run; simpl); by repeat constructor.
Qed.

Lemma child_settled_typed r o c : effects_typed (child_component c) (snd (child_settled r o c)).
Proof. unfold effects_typed. rewrite child_settled_no_create. constructor. Qed.

Lemma child_mount_typed a c : effects_typed (child_component c) (snd (child_mount a c)).
Proof.
  unfold effects_typed. destruct c as [| | | s]; simpl; [constructor.. |].
  unfold UserDetails.componentWillMount. destruct (App.selectedUserId a) as [[|] |]; by repeat constructor.
Qed.

Lemma app_typed_of_issued h : (forall s, a_issued (snd (h s)) = [] \/ a_issued (snd (h s)) = [GetOrgs]) -> app_typed h.
Proof. intros Hh s. by destruct (Hh s) as [-> | ->]; repeat constructor. Qed.

Lemma event_typed ev s h : event_handler ev s = Some h -> app_typed h.
Proof.
  intros Hev. apply app_typed_of_issued. intros s'.
  event_cases ev s Hev; unfold App.closeReload, App.setError; rewrite ?hseq_run; simpl;
    repeat (case_match; simpl); auto.
Qed.

Lemma closeReload_typed act : app_typed (App.closeReload act).
Proof. intros s. rewrite closeReload_issues. by repeat constructor. Qed.

Lemma setError_typed e msg : app_typed (App.setError e msg).
Proof. intros s. rewrite setError_issues. constructor. Qed.

Lemma orgs_settled_typed o : app_typed (App.orgs_settled o).
Proof. intros s. rewrite orgs_settled_issues. constructor. Qed.

Lemma parent_call_typed m e h : parent_call m e = Some h -> app_typed h.
Proof.
  destruct e; simpl; [done | | intros [= <-]; apply setError_typed].
  destruct m; simpl; intros; simplify_eq; apply closeReload_typed.
Qed.

(** ** Instances keep their place *)

Lemma mount_lookup w m i x : sys_insts w !! i = Some x -> sys_insts (mount w m) !! i = Some x.
Proof.
  intros Hx. unfold mount. destruct (_ && _); [| done]. destruct (body m); [| done].
  simpl. by apply lookup_app_l_Some.
Qed.

Lemma foldl_mount_lookup ms w i x : sys_insts w !! i = Some x -> sys_insts (foldl mount w ms) !! i = Some x.
Proof. revert w. induction ms; intros w Hx; simpl; [done |]. by apply IHms, mount_lookup. Qed.

(** Re-rendering keeps every instance at its number, with its body. *)
Lemma app_run_lookup h w i x :
  sys_insts w !! i = Some x ->
  exists x', sys_insts (sys_app_run h w) !! i = Some x' /\
             inst_modal x' = inst_modal x /\ inst_body x' = inst_body x.
Proof.
  intros Hx. exists (unmount_hidden (fst (h (sys_app w))) x). split.
  - unfold sys_app_run, reconcile. apply foldl_mount_lookup. simpl.
    by rewrite list_lookup_fmap, Hx.
  - unfold unmount_hidden. by destruct (_ && _).
Qed.

(** ** A preservation principle for the invariants of the system *)

Section Preservation.
Variable P : sys -> Prop.
Hypothesis P_app : forall h w, app_typed h -> P w -> P (sys_app_run h w).
Hypothesis P_upd : forall w i x c,
  sys_insts w !! i = Some x -> child_component c = child_component (inst_body x) -> P w ->
  P (with_insts (<[i := mkInst (inst_modal x) c (inst_mounted x)]> (sys_insts w)) w).
Hypothesis P_add : forall w i x r,
  sys_insts w !! i = Some x -> issues_of (child_component (inst_body x)) r = true -> P w ->
  P (add_requests (OChild i) [r] w).
Hypothesis P_del : forall w l1 p l2,
  sys_inflight w = l1 ++ p :: l2 -> P w -> P (with_sys_inflight (l1 ++ l2) w).

Lemma child_effects_preserves i m es w x :
  sys_insts w !! i = Some x -> effects_typed (child_component (inst_body x)) es -> P w ->
  P (child_effects i m es w).
Proof.
  revert w x. induction es as [| e es IH]; intros w x Hx Hes Hw; simpl; [done |].
  destruct e as [r | |]; unfold effects_typed in Hes; simpl in Hes.
  - apply Forall_cons in Hes as [Hr Hes]. apply (IH _ x); [done | done | by eapply P_add].
  - destruct (parent_call m CCloseReload) as [h |] eqn:Hp; [| by eapply IH].
    destruct (app_run_lookup h w i x Hx) as (x' & Hx' & _ & Hb).
    apply (IH _ x'); [done | by rewrite Hb | apply P_app; [by eapply parent_call_typed | done]].
  - destruct (app_run_lookup (App.setError e msg) w i x Hx) as (x' & Hx' & _ & Hb).
    apply (IH _ x'); [done | by rewrite Hb | apply P_app; [apply setError_typed | done]].
Qed.

Lemma child_run_preserves i f w w' :
  (forall c, child_component (fst (f c)) = child_component c) ->
  (forall c, effects_typed (child_component c) (snd (f c))) ->
  child_run i f w = Some w' -> P w -> P w'.
Proof.
  intros Hc Ht Hrun Hw. unfold child_run in Hrun.
  destruct (sys_insts w !! i) as [x |] eqn:Hx; simplify_eq.
  set (c' := if inst_mounted x then _ else _).
  assert (child_component c' = child_component (inst_body x)) as Hc'
    by (subst c'; destruct (inst_mounted x); [apply Hc | apply unmounted_update_component]).
  apply (child_effects_preserves _ _ _ _ (mkInst (inst_modal x) c' (inst_mounted x))).
  - simpl. apply list_lookup_insert_eq. by eapply lookup_lt_Some.
  - simpl. rewrite Hc'. apply Ht.
  - by apply P_upd.
Qed.

Lemma sstep_preserves `{Backend} w w' : sstep w w' -> P w -> P w'.
Proof.
  intros [ev h w0 _ Hev | i ev x w0 w1 _ _ Hrun | w0 l1 own r l2 o w1 Hin _ Hd] Hw.
  - apply P_app; [by eapply event_typed | done].
  - by eapply child_run_preserves; [apply child_event_component | apply child_event_typed | |].
  - apply (P_del _ _ _ _ Hin) in Hw. destruct own; simpl in Hd.
    + injection Hd as <-. by apply P_app; [apply orgs_settled_typed |].
    + by eapply child_run_preserves; [apply child_settled_component | apply child_settled_typed | |].
Qed.
End Preservation.

(** ** Typing is preserved *)

Lemma owned_ok_app xs ys p : owned_ok xs p -> owned_ok (xs ++ ys) p.
Proof.
  destruct p as [[| i] r]; simpl; [done |]. intros (x & Hx & Hr).
  exists x. split; [by apply lookup_app_l_Some | done].
Qed.

Lemma owned_ok_unmount a xs p : owned_ok xs p -> owned_ok (map (unmount_hidden a) xs) p.
Proof.
  destruct p as [[| i] r]; simpl; [done |]. intros (x & Hx & Hr).
  exists (unmount_hidden a x). rewrite list_lookup_fmap, Hx. split; [done |].
  unfold unmount_hidden. by destruct (_ && _).
Qed.

Lemma owned_ok_insert xs i x c p :
  xs !! i = Some x -> owned_ok xs p -> owned_ok (<[i := mkInst (inst_modal x) c (inst_mounted x)]> xs) p.
Proof.
  intros Hx. destruct p as [[| j] r]; simpl; [done |]. intros (y & Hy & Hr).
  destruct (decide (i = j)) as [<- | Hne].
  - eexists. rewrite list_lookup_insert_eq by (by eapply lookup_lt_Some). simplify_eq/=. by split.
  - exists y. by rewrite list_lookup_insert_ne.
Qed.

Lemma typed_mount w m : sys_typed w -> sys_typed (mount w m).
Proof.
  intros [Hb Ho]. unfold mount. destruct (_ && _); [| done].
  destruct (body m) as [c |] eqn:Hc; [| done]. simpl. split.
  - apply Forall_app. split; [done |]. repeat constructor. simpl.
    by rewrite child_mount_component, (body_component m c).
  - apply Forall_app. split.
    + eapply Forall_impl; [exact Ho | intros p; apply owned_ok_app].
    + pose proof (child_mount_typed (sys_app w) c) as Ht. unfold effects_typed in Ht.
      rewrite (body_component m c Hc) in Ht.
      apply Forall_fmap. eapply Forall_impl; [exact Ht |]. intros r Hr. simpl.
      exists (mkInst m (fst (child_mount (sys_app w) c)) true).
      by rewrite lookup_app_r, Nat.sub_diag by lia.
Qed.

Lemma typed_foldl_mount ms w : sys_typed w -> sys_typed (foldl mount w ms).
Proof. revert w. induction ms; intros w Hw; simpl; [done |]. by apply IHms, typed_mount. Qed.

Lemma typed_reconcile w : sys_typed w -> sys_typed (reconcile w).
Proof.
  intros [Hb Ho]. unfold reconcile. apply typed_foldl_mount. split; simpl.
  - apply Forall_fmap. eapply Forall_impl; [exact Hb |]. intros x Hx. simpl.
    unfold unmount_hidden. by destruct (_ && _).
  - eapply Forall_impl; [exact Ho | intros p; apply owned_ok_unmount].
Qed.

Lemma typed_app_run h w : app_typed h -> sys_typed w -> sys_typed (sys_app_run h w).
Proof.
  intros Hh [Hb Ho]. apply typed_reconcile. split; simpl; [done |].
  apply Forall_app. split; [done |]. apply Forall_fmap. eapply Forall_impl; [apply Hh | done].
Qed.

Lemma typed_upd w i x c :
  sys_insts w !! i = Some x -> child_component c = child_component (inst_body x) ->
  sys_typed w -> sys_typed (with_insts (<[i := mkInst (inst_modal x) c (inst_mounted x)]> (sys_insts w)) w).
Proof.
  intros Hx Hc [Hb Ho]. split; simpl.
  - apply Forall_insert; [done |]. simpl. rewrite Hc. by eapply (Forall_lookup_1 _ _ _ _ Hb).
  - eapply Forall_impl; [exact Ho | intros p; by apply owned_ok_insert].
Qed.

Lemma typed_add w i x r :
  sys_insts w !! i = Some x -> issues_of (child_component (inst_body x)) r = true ->
  sys_typed w -> sys_typed (add_requests (OChild i) [r] w).
Proof.
  intros Hx Hr [Hb Ho]. split; simpl; [done |]. apply Forall_app. split; [done |].
  repeat constructor. exists x. split; [done |].
  by rewrite <- (Forall_lookup_1 _ _ _ _ Hb Hx).
Qed.

Lemma typed_del w l1 p l2 :
  sys_inflight w = l1 ++ p :: l2 -> sys_typed w -> sys_typed (with_sys_inflight (l1 ++ l2) w).
Proof.
  intros Hin [Hb Ho]. split; simpl; [done |]. rewrite Hin in Ho.
  apply Forall_app in Ho as [Ho1 Ho2]. apply Forall_cons in Ho2 as [_ Ho2]. by apply Forall_app.
Qed.

Lemma sstep_typed `{Backend} w w' : sstep w w' -> sys_typed w -> sys_typed w'.
Proof.
  apply sstep_preserves;
    [apply typed_app_run | apply typed_upd | apply typed_add | apply typed_del].
Qed.

Lemma typed_initial : sys_typed sys_initial.
Proof. split; vm_compute; repeat constructor. Qed.

(** Progress: in a well-typed state every request in flight can settle,
    with the server's answer or with any failure. *)
Lemma typed_progress `{Backend} w j p f :
  sys_typed w -> sys_inflight w !! j = Some p -> exists w', sexec w (SSet j f) = Some w'.
Proof.
  intros [_ Ho] Hj. simpl. rewrite Hj. simpl.
  destruct p as [[| i] r]; simpl; [by eexists |].
  destruct (Forall_lookup_1 _ _ _ _ Ho Hj) as (x & Hx & _). simpl in Hx.
  unfold child_run. simpl. rewrite Hx. by eexists.
Qed.

(** C36. Every reachable state of the whole client is well typed: each
    instance's body is its dialog's component, App has only
    [GET /api/orgs] in flight, and every other request in flight is one
    its instance's component issues, so the continuation that runs when
    it settles is the one its issuer attached.  And every request in
    flight can settle, with the server's answer or any failure. *)
Theorem system_well_typed `{Backend} w :
  rtc sstep sys_initial w ->
  sys_typed w /\
  (forall j p f, sys_inflight w !! j = Some p -> exists w', sexec w (SSet j f) = Some w').
Proof.
  intros Hr. assert (sys_typed w) as Ht.
  { apply (rtc_invariant sstep sys_typed sys_initial w); [apply sstep_typed | apply typed_initial | done]. }
  split; [done |]. intros j p f Hj. by eapply typed_progress.
Qed.

(** A server with one organisation, on which only "ac" is taken. *)
Definition typing_demo_backend : Backend :=
  {| backend_exists _ v := String.eqb v "ac";
     backend_orgs := [mkOrg 1 "acme" [mkUserRef 7 "a@acme"] []];
     backend_user _ := None |}.

Lemma system_well_typed_witness :
  sys_typed sys_initial /\
  (forall j p f, sys_inflight sys_initial !! j = Some p ->
                 exists w', @sexec typing_demo_backend sys_initial (SSet j f) = Some w').
Proof. apply (@system_well_typed typing_demo_backend). apply rtc_refl. Defined.
