(* ===== verification/SystemProps.v ===== *)
(** * SystemProps: the claims about the whole client

    The claims about [System.v]'s world of App and its mounted bodies:
    - App's dialog invariant holds for the whole client, with its bodies
      mounted exactly while their dialogs are shown;
    - without user input the network quiesces, after at most as many
      settlements as the load in flight;
    - only an enabled submit of a mounted form sends a creation call;
    - a click on a user link mounts UserDetails, which fetches that user;
    - the stale callbacks of dismissed bodies: a dismissed AddOrg's
      creation closes the Add Organization dialog opened after it, and a
      later failure replaces the error dialog's message.

    Concrete scenarios run [srun] on [sys_demo_backend] and are lifted to
    paths by [srun_sound]. *)

From S2P Require Import Prelude Js Remote Forms FormWorld Modal OrgDetails App DialogSpec UserDetails System.

Definition sys_reachable `{Backend} (w : sys) : Prop := rtc sstep sys_initial w.

(** A server with one organisation, "acme", whose only user is 7; only
    the name "ac" is taken. *)
Definition sys_demo_backend : Backend :=
  {| backend_exists _ v := String.eqb v "ac";
     backend_orgs := [mkOrg 1 "acme" [mkUserRef 7 "a@acme"] []];
     backend_user id := if id =? 7 then Some (mkUserDetail 7 "a@acme" [mkOrgRef 1 "acme"] []) else None |}.

(** The snapshot is fetched; no dialog is open. *)
Definition sys_loaded : sys := default sys_initial (@srun sys_demo_backend sys_initial [SSet 0 None]).

(** C28. In every reachable state of the whole client at most one dialog
    is shown, a [broke] client shows only the error dialog, and the
    dialog bodies are mounted exactly while their dialogs are shown:
    every shown dialog with a body component has a mounted instance, and
    every mounted instance belongs to a shown dialog. *)
Theorem system_dialogs_exclusive `{Backend} w :
  sys_reachable w ->
  length (App.visible_modals (sys_app w)) <= 1 /\
  (App.broke (sys_app w) = true -> App.visible_modals (sys_app w) = [App.MError]) /\
  reconciled w /\ mounted_shown w.
Proof.
  intros Hr. pose proof (reachable_one_dialog _ (reachable_refines w Hr)) as Hone.
  split_and!; [done | by apply broke_only_error | by apply reachable_reconciled | by apply reachable_mounted_shown].
Qed.

Lemma system_dialogs_exclusive_witness :
  length (App.visible_modals (sys_app sys_loaded)) <= 1 /\
  (App.broke (sys_app sys_loaded) = true -> App.visible_modals (sys_app sys_loaded) = [App.MError]) /\
  reconciled sys_loaded /\ mounted_shown sys_loaded.
Proof. apply (@system_dialogs_exclusive sys_demo_backend). apply srun_sound with [SSet 0 None]. reflexivity. Defined.

(** C29. The number of settlements that can follow a reachable state is
    bounded by its load: one per request in flight, two per creation call. *)
Theorem settlements_bounded `{Backend} n w w' :
  sys_reachable w -> nsteps settle_step n w w' -> n <= load (sys_inflight w).
Proof. intros Hr. by apply settle_nsteps_load, reachable_reconciled. Qed.

(** The first fetch settles. *)
Lemma first_fetch_settles : @settle_step sys_demo_backend sys_initial sys_loaded.
Proof.
  exists [], OApp, GetOrgs, [], (@backend_reply sys_demo_backend GetOrgs).
  split_and!; [reflexivity | by left | reflexivity].
Qed.

Lemma settlements_bounded_witness : 1 <= load (sys_inflight sys_initial).
Proof.
  apply (@settlements_bounded sys_demo_backend 1 sys_initial sys_loaded); [apply rtc_refl |].
  eapply nsteps_l; [apply first_fetch_settles | apply nsteps_O].
Defined.

(** C32. A click on a user link of an [OrgDetails] (the page takes it
    while no dialog is shown) opens the "User details" dialog alone and
    mounts a fresh UserDetails for that user.  The instance fetches
    [/api/user/{id}], unless the id is [0], which it never fetches. *)
Theorem select_user_mounts_details `{Backend} w id :
  sys_reachable w -> page_enabled (sys_app w) = true -> id ∈ App.listed_users (sys_app w) ->
  exists w', sstep w w' /\
    App.visible_modals (sys_app w') = [App.MUserDetails] /\
    sys_insts w' = sys_insts w ++ [mkInst App.MUserDetails (CDetails UserDetails.init) true] /\
    sys_inflight w' = sys_inflight w ++
      match id with 0 => [] | _ => [(OChild (length (sys_insts w)), GetUser id)] end.
Proof.
  intros Hr Hp Hid.
  assert (Hun : forall x, x ∈ sys_insts w -> inst_mounted x = false)
    by (intros; by eapply page_enabled_unmounted; [apply reachable_mounted_shown | |]).
  exists (sys_app_run (App.selectUser id) w). split.
  { apply (ss_page (ClickUser id)); [done |]. simpl. rewrite Hp. simpl. by rewrite bool_decide_true. }
  apply page_enabled_none in Hp. rewrite length_visible_modals in Hp.
  destruct w as [[os sel ao au al b er m0] insts fl sent eff]. simpl in *.
  destruct sel, ao, au, al, b; simpl in Hp; try lia.
  unfold sys_app_run, reconcile. simpl. rewrite unmount_hidden_unmounted by done.
  rewrite !mount_hidden by (rewrite ?mount_app; reflexivity).
  rewrite mount_fresh by (simpl; exact Hun). simpl.
  rewrite !app_nil_r. destruct id; split_and!; done.
Qed.

Lemma select_user_mounts_details_witness :
  exists w', @sstep sys_demo_backend sys_loaded w' /\
    App.visible_modals (sys_app w') = [App.MUserDetails] /\
    sys_insts w' = sys_insts sys_loaded ++ [mkInst App.MUserDetails (CDetails UserDetails.init) true] /\
    sys_inflight w' = sys_inflight sys_loaded ++ [(OChild (length (sys_insts sys_loaded)), GetUser 7)].
Proof.
  apply (@select_user_mounts_details sys_demo_backend sys_loaded 7).
  - apply srun_sound with [SSet 0 None]. reflexivity.
  - reflexivity.
  - vm_compute. apply list_elem_of_In. left. reflexivity.
Defined.

(** ** Stale callbacks of dismissed bodies *)

(** The user creates "acme", dismisses the dialog with Escape before the
    creation answers, opens Add Organization again and types "beta". *)
Definition reopened_acts : list saction :=
  [SSet 0 None; SEv (SPage ClickAddOrg); SEv (SForm 0 (FInput "acme")); SEv (SForm 0 FTimer);
   SSet 0 None; SEv (SForm 0 FSubmit); SEv (SPage (DialogClose App.MAddOrg MyModal.EscapeKey));
   SEv (SPage ClickAddOrg); SEv (SForm 1 (FInput "beta"))].

Definition reopened : sys := default sys_initial (@srun sys_demo_backend sys_initial reopened_acts).

(** The dismissed form's creation then succeeds. *)
Definition reopened_closed : sys := default reopened (@sexec sys_demo_backend reopened (SSet 0 None)).

(** C30. A dismissed form still closes the dialog: after the user
    dismisses an Add Organization dialog whose creation is in flight and
    opens a new one, the old instance's success calls
    [closeReload('addingOrg')], which closes the new dialog and unmounts
    its form while the user is typing in it. *)
Theorem stale_create_closes_reopened :
  exists w w', @sys_reachable sys_demo_backend w /\ @settle_step sys_demo_backend w w' /\
    App.visible_modals (sys_app w) = [App.MAddOrg] /\
    (exists s0, sys_insts w !! 0 = Some (mkInst App.MAddOrg (COrg s0) false)) /\
    (exists s1, sys_insts w !! 1 = Some (mkInst App.MAddOrg (COrg s1) true) /\
                AddOrg.name s1 = "beta") /\
    sys_inflight w = [(OChild 0, PostOrg "acme")] /\
    App.visible_modals (sys_app w') = [] /\
    (exists s1, sys_insts w' !! 1 = Some (mkInst App.MAddOrg (COrg s1) false)).
Proof.
  exists reopened, reopened_closed. split_and!.
  - apply srun_sound with reopened_acts. vm_compute. reflexivity.
  - apply (sexec_settle _ 0 None). vm_compute. reflexivity.
  - vm_compute. reflexivity.
  - eexists. vm_compute. reflexivity.
  - eexists. vm_compute. split; reflexivity.
  - vm_compute. reflexivity.
  - vm_compute. reflexivity.
  - eexists. vm_compute. reflexivity.
Qed.

(** The user types "acme" in Add Organization and dismisses the dialog
    while its check is in flight, then opens the details of user 7. *)
Definition two_failures_acts : list saction :=
  [SSet 0 None; SEv (SPage ClickAddOrg); SEv (SForm 0 (FInput "acme")); SEv (SForm 0 FTimer);
   SEv (SPage (DialogClose App.MAddOrg MyModal.EscapeKey)); SEv (SPage (ClickUser 7));
   SSet 0 (Some Transport)].

Definition first_failure : sys := default sys_initial (@srun sys_demo_backend sys_initial two_failures_acts).

(** The user fetch fails too. *)
Definition second_failure : sys :=
  default first_failure (@sexec sys_demo_backend first_failure (SSet 0 (Some (HttpStatus 500)))).

(** C31. The error dialog reports the last failure, not the first: the
    dismissed form's failed check breaks the session while the user is
    looking at a user's details, and the failure of that user's fetch,
    which is still in flight, then replaces the message. *)
Theorem error_message_overwritten :
  exists w w', @sys_reachable sys_demo_backend w /\ @settle_step sys_demo_backend w w' /\
    App.broke (sys_app w) = true /\ App.errorMsg (sys_app w) = "Failed checking org validity" /\
    App.visible_modals (sys_app w') = [App.MError] /\
    App.errorMsg (sys_app w') = "failed fetching user details".
Proof.
  exists first_failure, second_failure. split_and!.
  - apply srun_sound with two_failures_acts. vm_compute. reflexivity.
  - apply (sexec_settle _ 0 (Some (HttpStatus 500))). vm_compute. reflexivity.
  - vm_compute. reflexivity.
  - vm_compute. reflexivity.
  - vm_compute. reflexivity.
  - vm_compute. reflexivity.
Qed.

(** ** Creation calls in the whole client *)

(** The creation call the [submit] of a form body sends from its state. *)
Definition submit_request (c : child) : option request :=
  match c with
  | COrg s => Some (PostOrg (AddOrg.name s))
  | CUser s => Some (PostUser (AddUser.email s) (AddUser.orgIds s))
  | CLinode s => Some (PostLinode (AddLinode.name s) (AddLinode.orgId s))
  | CDetails _ => None
  end.

Lemma submit_sends i x w w' :
  sys_insts w !! i = Some x -> child_submit_enabled (inst_body x) = true ->
  child_run i (child_event FSubmit) w = Some w' ->
  exists r, submit_request (inst_body x) = Some r /\ sys_sent w' = sys_sent w ++ [(OChild i, r)].
Proof.
  intros Hx Hen Hrun. rewrite (child_run_inflight _ _ _ _ _ Hx Hrun).
  destruct (inst_body x) as [s | s | s | s]; simpl in *; [| | | done];
    unfold AddOrg.submit_disabled, AddUser.submit_disabled, AddLinode.submit_disabled,
      AddOrg.submit, AddUser.submit, AddLinode.submit in *; simpl in *;
    (destruct (is_yes _); simpl in *; [| by rewrite ?andb_false_r, ?orb_true_r in Hen]);
    eexists; split; reflexivity.
Qed.

(** C34. Submission gating holds for the whole client: a step that sends
    a new creation call is a submit in a mounted form body whose button
    is enabled, and it sends exactly that form's current values.  A
    dismissed form, or one whose check has not settled on 'yes', never
    sends one. *)
Theorem system_creates_gated `{Backend} w w' :
  sstep w w' -> creates_sent w < creates_sent w' ->
  exists i x r, sys_insts w !! i = Some x /\ inst_mounted x = true /\
    child_submit_enabled (inst_body x) = true /\ submit_request (inst_body x) = Some r /\
    child_run i (child_event FSubmit) w = Some w' /\ sys_sent w' = sys_sent w ++ [(OChild i, r)].
Proof.
  intros Hs Hlt. destruct Hs as [ev h w0 _ Hev | i ev x w0 w1 Hx Hal Hrun | w0 l1 own r l2 o w1 _ _ Hd].
  - rewrite creates_sent_app_run in Hlt by (by eapply event_no_create). lia.
  - pose proof (creates_sent_child_run _ _ _ _ _ Hx Hrun) as Hc.
    destruct ev; [rewrite child_event_no_create in Hc by done; lia.. |].
    simpl in Hal. apply andb_true_iff in Hal as [Hm Hen].
    destruct (submit_sends i x w0 w1 Hx Hen Hrun) as (r & Hr & Hsent).
    exists i, x, r. done.
  - destruct own as [| i]; simpl in Hd.
    + injection Hd as <-. rewrite creates_sent_app_run in Hlt by by rewrite orgs_settled_issues.
      unfold creates_sent in Hlt. simpl in Hlt. lia.
    + unfold child_run in Hd. destruct (sys_insts _ !! i) as [x |] eqn:Hx; [| done].
      pose proof (creates_sent_child_run i (child_settled r o) _ w1 x Hx) as Hc.
      unfold child_run in Hc. rewrite Hx in Hc. specialize (Hc Hd).
      rewrite child_settled_no_create in Hc. change (creates []) with 0 in Hc.
      unfold creates_sent in Hc, Hlt. simpl in Hc, Hlt. lia.
Qed.

(** "acme" is checked and free; the user submits. *)
Definition org_ready : sys := default sys_initial (@srun sys_demo_backend sys_initial (take 5 reopened_acts)).
Definition org_submitted : sys := default org_ready (@sexec sys_demo_backend org_ready (SEv (SForm 0 FSubmit))).

Lemma system_creates_gated_witness :
  exists i x r, sys_insts org_ready !! i = Some x /\ inst_mounted x = true /\
    child_submit_enabled (inst_body x) = true /\ submit_request (inst_body x) = Some r /\
    child_run i (child_event FSubmit) org_ready = Some org_submitted /\
    sys_sent org_submitted = sys_sent org_ready ++ [(OChild i, r)].
Proof.
  apply (@system_creates_gated sys_demo_backend).
  - apply (sexec_step _ (SEv (SForm 0 FSubmit))). vm_compute. reflexivity.
  - vm_compute. lia.
Defined.

(** The user types "acme" and dismisses the dialog within the debounce window. *)
Definition dismissed_typing : sys :=
  default sys_initial (@srun sys_demo_backend sys_initial
    [SSet 0 None; SEv (SPage ClickAddOrg); SEv (SForm 0 (FInput "acme"));
     SEv (SPage (DialogClose App.MAddOrg MyModal.EscapeKey))]).

Definition dismissed_timer : sys :=
  default dismissed_typing (@sexec sys_demo_backend dismissed_typing (SEv (SForm 0 FTimer))).

(** C35. Dismissing AddOrg does not cancel its debounced check: when the
    window elapses after the dialog closed, the unmounted instance still
    sends [GET /api/exists/org/acme], whose failure would break the
    session although no dialog is shown. *)
Theorem dismissed_form_still_checks :
  exists w w', @sys_reachable sys_demo_backend w /\ @sstep sys_demo_backend w w' /\
    App.visible_modals (sys_app w) = [] /\
    (exists s, sys_insts w !! 0 = Some (mkInst App.MAddOrg (COrg s) false)) /\
    sys_sent w' = sys_sent w ++ [(OChild 0, GetExists KOrg "acme")].
Proof.
  exists dismissed_typing, dismissed_timer. split_and!.
  - apply srun_sound with [SSet 0 None; SEv (SPage ClickAddOrg); SEv (SForm 0 (FInput "acme"));
                           SEv (SPage (DialogClose App.MAddOrg MyModal.EscapeKey))].
    vm_compute. reflexivity.
  - apply (sexec_step _ (SEv (SForm 0 FTimer))). vm_compute. reflexivity.
  - vm_compute. reflexivity.
  - eexists. vm_compute. reflexivity.
  - vm_compute. reflexivity.
Qed.
