(* ===== verification/SysOrgs.v ===== *)
(** * SysOrgs: the organisation ids a creation carries

    AddUser and AddLinode render their organisation select from the
    [orgs] prop, which is App's snapshot of [GET /api/orgs]
    ([select_rendered] in System.v), and [updateOrg] reads the selected
    options back with [parseInt(opt.value, 10)].  The invariant
    [sys_served] follows those ids through the whole client:
    - App's [orgs] is [null] or the server's list;
    - every AddUser instance's [orgIds] holds ids of that list or the
      [NaN] of the placeholder ["capture"] (claim C23), and every
      AddLinode instance's [orgId] is an id of that list;
    - so every [POST /api/create/user] and [/api/create/linode] sent
      carries only such ids.
    App's [orgs] can only become what a settled request answered; a
    [GET /api/orgs] answers the server's list, and the answers to the
    other requests have no [orgs] field. *)

From S2P Require Import Prelude Js Remote Forms FormWorld Modal App UserDetails System SysTyping SystemProps.

Section Served.
Context `{Backend}.

(** An id of an organisation the server lists. *)
Definition org_served (j : jsnum) : Prop := j ∈ map org_num backend_orgs.

(** What AddUser may hold: a listed id or the placeholder's [NaN]. *)
Definition user_org_ok (j : jsnum) : Prop := j = JNaN \/ org_served j.

Definition orgs_served (a : App.state) : Prop :=
  App.orgs a = None \/ App.orgs a = Some backend_orgs.

Definition child_served (c : child) : Prop :=
  match c with
  | CUser s => Forall user_org_ok (AddUser.orgIds s)
  | CLinode s => forall j, AddLinode.orgId s = Some j -> org_served j
  | _ => True
  end.

Definition req_served (r : request) : Prop :=
  match r with
  | PostUser _ ids => Forall user_org_ok ids
  | PostLinode _ (Some j) => org_served j
  | _ => True
  end.

Definition sys_served (w : sys) : Prop :=
  orgs_served (sys_app w) /\ Forall (fun x => child_served (inst_body x)) (sys_insts w) /\
  Forall (fun p => req_served p.2) (sys_sent w).

(** An App handler that leaves [orgs] as it is. *)
Definition keeps_orgs (h : App.h) : Prop := forall s, App.orgs (fst (h s)) = App.orgs s.

(** ** Reading the rendered options back *)

Lemma served_no_create rs : creates rs = 0 -> Forall req_served rs.
Proof.
  unfold creates. induction rs as [| r rs IH]; [constructor |]. rewrite filter_cons. intros Hc.
  destruct (decide (is_create r = true)) as [| Hr]; simpl in Hc; [lia |].
  constructor; [destruct r as [| | | | | ? []]; simpl in *; done | auto].
Qed.

Lemma snapshot_served a j : orgs_served a -> j ∈ map org_num (default [] (App.orgs a)) -> org_served j.
Proof. intros [-> | ->]; simpl; [set_solver | done]. Qed.

(** The options rendered for [os], read back by [parseInt], are ids of [os]. *)
Lemma rendered_values os opts :
  map opt_value opts = map (fun o => opt_value (option_of_org o false)) os ->
  Forall (fun o => parseInt10 (opt_value o) ∈ map org_num os) opts.
Proof.
  revert os. induction opts as [| o opts IH]; intros [| o' os] Heq; simpl in Heq; try discriminate;
    [constructor |]. injection Heq as Hv Hrest. constructor.
  - rewrite Hv, parseInt10_pretty. left.
  - eapply Forall_impl; [by apply IH |]. intros. by right.
Qed.

Lemma selected_orgs_forall (P : jsnum -> Prop) opts :
  Forall (fun o => P (parseInt10 (opt_value o))) opts -> Forall P (AddUser.selected_orgs opts).
Proof. induction 1; simpl; [constructor | case_match; auto]. Qed.

Lemma first_selected_elem opts o : AddLinode.first_selected opts = Some o -> o ∈ opts.
Proof. induction opts; simpl; [done | case_match; intros; simplify_eq; set_solver]. Qed.

(** Split the rendered select into the placeholder and the organisations. *)
Lemma select_rendered_split a c opts :
  orgs_served a -> select_rendered a c opts = true ->
  exists o0 rest, opts = o0 :: rest /\ opt_value o0 = "capture" /\
    Forall (fun o => org_served (parseInt10 (opt_value o))) rest /\
    match c with CLinode _ => opt_selected o0 = false | _ => True end.
Proof.
  intros Ha. unfold select_rendered. rewrite andb_true_iff, bool_decide_eq_true.
  intros [Hv Hc]. destruct opts as [| o0 rest]; simpl in Hv; [discriminate |].
  injection Hv as Hv0 Hrest. exists o0, rest. split_and!; [done | done | |].
  - eapply Forall_impl; [apply (rendered_values (default [] (App.orgs a))) |].
    + rewrite Hrest, !map_map. reflexivity.
    + intros o. by apply snapshot_served.
  - destruct c; simpl in Hc; try done. by destruct (opt_selected o0).
Qed.

Lemma user_select_served a s opts :
  orgs_served a -> select_rendered a (CUser s) opts = true -> Forall user_org_ok (AddUser.selected_orgs opts).
Proof.
  intros Ha Hs. destruct (select_rendered_split _ _ _ Ha Hs) as (o0 & rest & -> & Hv & Hrest & _).
  apply selected_orgs_forall. constructor; [rewrite Hv; by left |].
  eapply Forall_impl; [exact Hrest |]. intros. by right.
Qed.

Lemma linode_select_served a s opts o :
  orgs_served a -> select_rendered a (CLinode s) opts = true ->
  AddLinode.first_selected opts = Some o -> org_served (parseInt10 (opt_value o)).
Proof.
  intros Ha Hs. destruct (select_rendered_split _ _ _ Ha Hs) as (o0 & rest & -> & _ & Hrest & Hsel).
  simpl. rewrite Hsel. intros Ho%first_selected_elem. by eapply Forall_forall in Hrest.
Qed.

(** ** The bodies' handlers *)

(** A DOM event of a body, with the select's options those it renders,
    keeps its ids served and sends only served ids. *)
Lemma child_event_served a ev c :
  orgs_served a -> child_served c -> (forall opts, ev = FSelect opts -> select_rendered a c opts = true) ->
  child_served (fst (child_event ev c)) /\ Forall req_served (child_issued (snd (child_event ev c))).
Proof.
  intros Ha Hc Hsel. destruct c as [s | s | s | s]; [| | | split; [done | constructor]];
    destruct ev as [v | opts | |]; simpl;
    unfold AddOrg.update, AddOrg.checkValidity, AddOrg.debounce_fire, AddOrg._checkValidity,
      AddOrg.submit, AddUser.updateEmail, AddUser.checkValidity, AddUser.updateOrg, AddUser.submit,
      AddLinode.updateName, AddLinode.checkValidity, AddLinode.updateOrg, AddLinode.submit;
    rewrite ?hseq_run; simpl; repeat (case_match; simpl; rewrite ?hseq_run; simpl);
    try (split; [done | by repeat constructor]).
  - split; [by eapply user_select_served; [| apply Hsel] | constructor].
  - split; [intros j [= <-]; eapply linode_select_served; [| apply Hsel | eassumption] | constructor]; done.
  - split; [done |]. repeat constructor. simpl. case_match; [by apply Hc | done].
Qed.

Lemma child_settled_served r o c : child_served c -> child_served (fst (child_settled r o c)).
Proof.
  destruct c as [s | s | s | s]; simpl; try done;
    unfold AddUser.on_settled, AddUser.check_settled, AddUser.create_settled,
      AddLinode.on_settled, AddLinode.check_settled, AddLinode.create_settled;
    repeat (case_match; simpl); done.
Qed.

Lemma child_mount_served a c :
  child_served c -> child_served (fst (child_mount a c)) /\ Forall req_served (child_issued (snd (child_mount a c))).
Proof. split; [by destruct c | apply served_no_create, child_mount_no_create]. Qed.

(** The freshly constructed bodies hold no organisation. *)
Lemma body_served m c : body m = Some c -> child_served c.
Proof. destruct m; intros [= <-]; simpl; try done; constructor. Qed.

Lemma unmounted_update_served c c' : child_served c -> child_served (unmounted_update c c').
Proof. by destruct c, c'. Qed.

(** ** App's handlers *)

Lemma keeps_orgs_served h s : keeps_orgs h -> orgs_served s -> orgs_served (fst (h s)).
Proof. unfold orgs_served. intros Hk. by rewrite Hk. Qed.

Lemma event_keeps_orgs ev s h : event_handler ev s = Some h -> keeps_orgs h.
Proof. intros Hev s'. event_cases ev s Hev; repeat (case_match; simpl); done. Qed.

Lemma parent_call_keeps_orgs m e h : parent_call m e = Some h -> keeps_orgs h.
Proof.
  intros Hp s. destruct e; simpl in Hp; [done | destruct m; simplify_eq/= | simplify_eq/=];
    unfold App.closeReload, App.setError; rewrite ?hseq_run; done.
Qed.

(** [fetchOrgs]' continuation stores what the request answered: the
    server's list for [GET /api/orgs], nothing for another answer. *)
Lemma reply_orgs r resp :
  backend_reply r = Resolved resp -> App.resp_orgs resp = None \/ App.resp_orgs resp = Some backend_orgs.
Proof. destruct r; simpl; repeat case_match; intros; simplify_eq/=; auto. Qed.

Lemma orgs_settled_served r o s : settles r o -> orgs_served s -> orgs_served (fst (App.orgs_settled o s)).
Proof.
  intros Hset Hs. destruct o as [resp | f]; unfold App.orgs_settled; [| unfold App.setError; by rewrite hseq_run].
  destruct Hset as [Hr | [? ?]]; [| done]. apply (reply_orgs r). by rewrite Hr.
Qed.

(** ** The system *)

Lemma served_add own rs w : Forall req_served rs -> sys_served w -> sys_served (add_requests own rs w).
Proof.
  intros Hr (Ha & Hi & Hs). split_and!; simpl; [done | done |].
  apply Forall_app; split; [done |]. by rewrite Forall_map.
Qed.

Lemma served_mount w m : sys_served w -> sys_served (mount w m).
Proof.
  intros Hw. unfold mount. destruct (_ && _); [| done]. destruct (body m) as [c |] eqn:Hb; [| done].
  destruct (child_mount_served (sys_app w) c (body_served _ _ Hb)) as [Hc Hr].
  apply served_add; [done |]. destruct Hw as (Ha & Hi & Hs).
  split_and!; simpl; [done | apply Forall_app; split; [done | by constructor] | done].
Qed.

Lemma served_reconcile w : sys_served w -> sys_served (reconcile w).
Proof.
  intros (Ha & Hi & Hs). unfold reconcile. generalize App.all_modals.
  intros ms. induction ms as [| m ms IH] using rev_ind; simpl.
  - split_and!; simpl; [done | | done]. rewrite Forall_map. eapply Forall_impl; [exact Hi |].
    intros x. unfold unmount_hidden. by destruct (_ && _).
  - rewrite foldl_app. simpl. by apply served_mount.
Qed.

Lemma served_app_run h w :
  (forall s, orgs_served s -> orgs_served (fst (h s))) -> app_typed h -> sys_served w ->
  sys_served (sys_app_run h w).
Proof.
  intros Hh Ht (Ha & Hi & Hs). apply served_reconcile. split_and!; simpl; [by apply Hh | done |].
  apply Forall_app; split; [done |]. rewrite Forall_map.
  eapply Forall_impl; [apply (Ht (sys_app w)) |]. by intros r ->.
Qed.

Lemma served_child_effects i m es w :
  Forall req_served (child_issued es) -> sys_served w -> sys_served (child_effects i m es w).
Proof.
  revert w. induction es as [| e es IH]; intros w Hes Hw; simpl; [done |].
  destruct e as [r | |]; simpl in Hes.
  - apply Forall_cons in Hes as [Hr Hes]. apply IH; [done |]. by apply served_add; [constructor |].
  - apply IH; [done |]. destruct (parent_call m CCloseReload) as [h |] eqn:Hp; [| done].
    apply served_app_run; [| by eapply parent_call_typed | done].
    intros s. by apply keeps_orgs_served, (parent_call_keeps_orgs m CCloseReload).
  - apply IH; [done |]. apply served_app_run; [| apply setError_typed | done].
    intros s. by apply keeps_orgs_served, (parent_call_keeps_orgs m (CSetError e msg)).
Qed.

Lemma served_child_run i f w w' :
  (forall x, sys_insts w !! i = Some x -> child_served (inst_body x) ->
     child_served (fst (f (inst_body x))) /\ Forall req_served (child_issued (snd (f (inst_body x))))) ->
  child_run i f w = Some w' -> sys_served w -> sys_served w'.
Proof.
  intros Hf Hrun Hw. unfold child_run in Hrun.
  destruct (sys_insts w !! i) as [x |] eqn:Hx; simplify_eq.
  destruct Hw as (Ha & Hi & Hs). pose proof (Forall_lookup_1 _ _ _ _ Hi Hx) as Hcx.
  destruct (Hf x eq_refl Hcx) as [Hc' Hr]. apply served_child_effects; [done |].
  split_and!; simpl; [done | | done]. apply Forall_insert; [done |]. simpl.
  destruct (inst_mounted x); [done | by apply unmounted_update_served].
Qed.

Lemma sstep_served w w' : sstep w w' -> sys_served w -> sys_served w'.
Proof.
  intros [ev h w0 _ Hev | i ev x w0 w1 Hx Hal Hrun | w0 l1 own r l2 o w1 _ Hset Hd] Hw.
  - apply served_app_run; [| by eapply event_typed | done].
    intros s. by apply keeps_orgs_served, (event_keeps_orgs ev (sys_app w0)).
  - eapply served_child_run; [| exact Hrun | exact Hw]. intros x' Hx' Hc.
    rewrite Hx in Hx'. injection Hx' as <-. apply (child_event_served (sys_app w0)); [apply Hw | done |].
    intros opts ->. simpl in Hal. by apply andb_true_iff in Hal as [_ ?].
  - assert (sys_served (with_sys_inflight (l1 ++ l2) w0)) as Hw' by apply Hw.
    destruct own as [| i]; simpl in Hd.
    + injection Hd as <-. apply served_app_run; [| apply orgs_settled_typed | done].
      intros s. by apply (orgs_settled_served r).
    + eapply served_child_run; [| exact Hd | exact Hw']. intros x _ Hc.
      rewrite child_settled_no_create. split; [by apply child_settled_served | constructor].
Qed.

Lemma served_initial : sys_served sys_initial.
Proof. split_and!; [by left | vm_compute; repeat constructor..]. Qed.

Lemma served_rtc w w' : rtc sstep w w' -> sys_served w -> sys_served w'.
Proof. induction 1; eauto using sstep_served. Qed.

End Served.

(** C5. Every user or linode creation the whole client sends carries only
    ids of organisations the server listed in [GET /api/orgs]: a
    [POST /api/create/user] holds such ids or the [NaN] of the
    placeholder option, and a [POST /api/create/linode] with an
    [orgId] holds such an id.  The selects offer App's snapshot, and the
    snapshot is only ever the server's list. *)
Theorem created_org_ids_served `{Backend} w :
  rtc sstep sys_initial w ->
  (forall own email ids, (own, PostUser email ids) ∈ sys_sent w -> Forall user_org_ok ids) /\
  (forall own name j, (own, PostLinode name (Some j)) ∈ sys_sent w -> org_served j).
Proof.
  intros Hr. destruct (served_rtc _ _ Hr served_initial) as (_ & _ & Hs).
  rewrite Forall_forall in Hs. split; intros * Hin; apply (Hs _ Hin).
Qed.

(** The snapshot is loaded, the Add User dialog opened, a free email
    typed and checked, the placeholder left selected with "acme", and the
    form submitted: the request carries [NaN] and acme's id. *)
Definition user_created : sys :=
  default sys_initial (@srun sys_demo_backend sys_initial
    [SSet 0 None; SEv (SPage ClickAddUser); SEv (SForm 0 (FInput "b@acme")); SSet 0 None;
     SEv (SForm 0 (FSelect [mkOption "capture" true; mkOption "1" true])); SEv (SForm 0 FSubmit)]).

Lemma created_org_ids_served_witness :
  sys_sent user_created = [(OApp, GetOrgs); (OChild 0, GetExists KUser "b@acme");
                           (OChild 0, PostUser "b@acme" [JNaN; JNum 1])] /\
  Forall (@user_org_ok sys_demo_backend) [JNaN; JNum 1].
Proof.
  split; [vm_compute; reflexivity |].
  refine (proj1 (@created_org_ids_served sys_demo_backend user_created _) (OChild 0) "b@acme"%string _ _).
  - apply srun_sound with [SSet 0 None; SEv (SPage ClickAddUser); SEv (SForm 0 (FInput "b@acme")); SSet 0 None;
      SEv (SForm 0 (FSelect [mkOption "capture" true; mkOption "1" true])); SEv (SForm 0 FSubmit)].
    vm_compute. reflexivity.
  - vm_compute. right. right. left.
Defined.

